(** * The GavCoin dapp's Application component

    A shallow embedding of [js/src/dapps/gavcoin/Application/application.js]:
    the React component that resolves the GavCoin contract through the
    registry, enumerates the accounts, and refreshes its state on every new
    block.  Promise chains are embedded as the reactions they register, run by
    an explicit event loop; [setState] calls are the commit points. *)

From Stdlib Require Import ZArith String Ascii List Lia Bool DecimalString.
From Stdlib Require DecimalN DecimalPos DecimalFacts.
From stdpp Require Import base option list strings gmap.

Local Open Scope string_scope.
Local Open Scope list_scope.
Local Open Scope Z_scope.

(** ** JavaScript values and promise outcomes *)

(** The values that can reach [onAction]: the component stores whatever it is
    handed. *)
Inductive JsVal :=
| JNull
| JUndefined
| JBool (b : bool)
| JNum (n : Z)
| JStr (s : string).

#[global] Instance JsVal_eq_dec : EqDecision JsVal.
Proof. solve_decision. Defined.

Inductive JsError :=
| RpcError (msg : string)
| TypeError (msg : string).

#[global] Instance JsError_eq_dec : EqDecision JsError.
Proof. solve_decision. Defined.

(** How a promise settles.  The same type describes a synchronous call that
    returns or throws: inside a [then] reaction a throw is a rejection. *)
Inductive Settled (A : Type) :=
| Fulfilled (v : A)
| Rejected (e : JsError).
Arguments Fulfilled {A} v.
Arguments Rejected {A} e.

Definition is_rejected {A} (p : Settled A) : bool :=
  match p with Fulfilled _ => false | Rejected _ => true end.

Module Promise.

(** [Promise.all] over an array: the array of values, or a rejection as soon
    as one member rejects.  The order in which members settle is not part of
    the model; with several rejections the reason kept is the first in array
    order. *)
Fixpoint all {A} (ps : list (Settled A)) : Settled (list A) :=
  match ps with
  | [] => Fulfilled []
  | Rejected e :: _ => Rejected e
  | Fulfilled v :: ps' =>
      match all ps' with
      | Fulfilled vs => Fulfilled (v :: vs)
      | Rejected e => Rejected e
      end
  end.

Definition all2 {A B} (a : Settled A) (b : Settled B) : Settled (A * B) :=
  match a, b with
  | Fulfilled x, Fulfilled y => Fulfilled (x, y)
  | Rejected e, _ => Rejected e
  | _, Rejected e => Rejected e
  end.

Definition all3 {A B C} (a : Settled A) (b : Settled B) (c : Settled C)
  : Settled (A * B * C) :=
  match a, b, c with
  | Fulfilled x, Fulfilled y, Fulfilled z => Fulfilled (x, y, z)
  | Rejected e, _, _ => Rejected e
  | _, Rejected e, _ => Rejected e
  | _, _, Rejected e => Rejected e
  end.

End Promise.

(** ** bignumber.js, on the values the component handles

    Every amount read from the chain is an integer-valued [BigNumber], here a
    [Z].  A quotient is a decimal with [DECIMAL_PLACES] = 20 fractional
    digits, rounded half away from zero ([ROUNDING_MODE] = 4, the library's
    defaults). *)
Module BigNumber.

Definition DECIMAL_PLACES : nat := 20.

(** A decimal [mant / 10^places]. *)
Record Decimal := { mant : Z; places : nat }.

Definition add (x y : Z) : Z := x + y.

(** [x.gt(y)] *)
Definition gt (x y : Z) : bool := y <? x.

Definition pow10 (k : nat) : Z := 10 ^ Z.of_nat k.

(** [n / d] rounded to the nearest integer, ties away from zero ([0 < d]). *)
Definition round_half_up (n d : Z) : Z :=
  Z.sgn n * ((2 * Z.abs n + d) / (2 * d)).

(** [x.div(d)] for an integer [x] and a positive integer [d]. *)
Definition div (x d : Z) : Decimal :=
  {| mant := round_half_up (x * pow10 DECIMAL_PLACES) d;
     places := DECIMAL_PLACES |}.

(** The mantissa of [q] rounded to [dp] fractional digits. *)
Definition rescale (dp : nat) (q : Decimal) : Z :=
  round_half_up (mant q * pow10 dp) (pow10 (places q)).

Definition digits (n : Z) : list ascii :=
  list_ascii_of_string (NilZero.string_of_uint (N.to_uint (Z.to_N n))).

(** Groups of three digits, separated by commas; [ds] is least significant
    digit first and [k] digits are still to come in the current group. *)
Fixpoint group_rev (ds : list ascii) (k : nat) : list ascii :=
  match ds with
  | [] => []
  | c :: ds' =>
      match k with
      | O => ","%char :: c :: group_rev ds' 2
      | S k' => c :: group_rev ds' k'
      end
  end.

Definition group (ds : list ascii) : list ascii :=
  rev (group_rev (rev ds) 3).

Definition pad_left (k : nat) (ds : list ascii) : list ascii :=
  repeat "0"%char (k - length ds) ++ ds.

(** The decimal [m / 10^dp] printed with exactly [dp] fractional digits and
    a grouped integer part ([FORMAT]: group size 3, separator [,],
    decimal point [.]). *)
Definition print_fixed (dp : nat) (m : Z) : string :=
  let a := Z.abs m in
  let int_part := group (digits (a / pow10 dp)) in
  let frac_part := pad_left dp (digits (a mod pow10 dp)) in
  string_of_list_ascii
    ((if m <? 0 then ["-"%char] else []) ++ int_part ++
     match dp with O => [] | _ => "."%char :: frac_part end).

(** [q.toFormat(dp)] *)
Definition toFormat (dp : nat) (q : Decimal) : string :=
  print_fixed dp (rescale dp q).

End BigNumber.

(** ** The remote API, as the component sees it *)

Definition Address := string.

Inductive Abi := registryAbi | gavcoinAbi.

#[global] Instance Abi_eq_dec : EqDecision Abi.
Proof. solve_decision. Defined.

(** What [api.newContract(abi, address).instance] gives: the binding the
    calls are issued against. *)
Record Instance := { inst_abi : Abi; inst_at : Address }.

#[global] Instance Instance_eq_dec : EqDecision Instance.
Proof. solve_decision. Defined.

Definition newContract (abi : Abi) (at_ : Address) : Instance :=
  {| inst_abi := abi; inst_at := at_ |}.

(** An entry of [personal.accountsInfo()]; [info_name] is [None] when the
    entry carries no [name]. *)
Record AccountInfo := { info_name : option string }.

Definition DIVISOR : Z := 10 ^ 6.

(** Modelled from the spec: [Api.format.fromWei] lives in the API package,
    outside this component.  Native amounts are converted from their base
    unit, 18 decimal digits below the displayed unit. *)
Definition WEI : Z := 10 ^ 18.
Definition fromWei (value : Z) : BigNumber.Decimal := BigNumber.div value WEI.

(** Modelled from the spec: [Api.format.sha3] lives in the API package.  The
    registry key is a fixed hash of the name; it is kept symbolic. *)
Inductive Hash := sha3 (name : string).

#[global] Instance Hash_eq_dec : EqDecision Hash.
Proof. solve_decision. Defined.

(** The requests the component sends. *)
Inductive Call :=
| RegistryAddress
| GetAddress (key : Hash) (tag : string)
| ListAccounts
| AccountsInfo
| TotalSupply
| Remaining
| Price
| BalanceOf (who : Address)
| GetBalance (who : Address).

#[global] Instance Call_eq_dec : EqDecision Call.
Proof. solve_decision. Defined.

(** The answers to the start-up requests, and whether constructing a
    binding throws. *)
Record StartupWorld := {
  registryAddress : Settled Address;
  getAddress : Settled Address;
  listAccounts : Settled (list Address);
  accountsInfo : Settled (gmap string AccountInfo);
  newContract_throws : Abi -> Address -> option JsError
}.

(** The answers to the reads of one pass. *)
Record ChainReads := {
  totalSupply_call : Settled Z;
  remaining_call : Settled Z;
  price_call : Settled Z;
  balanceOf_call : Address -> Settled Z;
  getBalance_call : Address -> Settled Z
}.

(** ** Component state *)

Module Account.

(** An element of [state.accounts].  It is created as
    [{ address, name, balance: 0 }]; [ethBalance], [gavBalance] and
    [hasGav] are properties a pass assigns later, [None] until then. *)
Record t := mk {
  address : Address;
  name : string;
  balance : Z;
  ethBalance : option string;
  gavBalance : option string;
  hasGav : option bool
}.

#[global] Instance eq_dec : EqDecision t.
Proof. solve_decision. Defined.

End Account.

Record State := mkState {
  action : JsVal;
  address : option Address;
  ethBalance : Z;
  gavBalance : Z;
  accounts : list Account.t;
  instance : option Instance;
  loading : bool;
  blockNumber : option Z;
  totalSupply : option Z;
  remaining : option Z;
  price : option Z
}.

#[global] Instance State_eq_dec : EqDecision State.
Proof. solve_decision. Defined.

Definition initial : State :=
  {| action := JNull; address := None; ethBalance := 0; gavBalance := 0;
     accounts := []; instance := None; loading := true; blockNumber := None;
     totalSupply := None; remaining := None; price := None |}.

(** ** Rendering *)

Inductive Modal :=
| ActionBuyIn (accs : list Account.t) (pr : option Z)
| ActionRefund (accs : list Account.t) (pr : option Z)
| ActionTransfer (accs : list Account.t).

Record Status := {
  status_gavBalance : Z;
  status_address : option Address;
  status_blockNumber : option Z;
  status_totalSupply : option Z;
  status_remaining : option Z;
  status_price : option Z;
  status_accounts : list Account.t
}.

Record Interface := {
  modals : option Modal;
  status : Status;
  events_accounts : list Account.t
}.

Inductive LoadingElement := Loading.

Record View := {
  view_loading : option LoadingElement;
  view_interface : option Interface
}.

Definition renderLoading (st : State) : option LoadingElement :=
  if negb (loading st) then None else Some Loading.

Definition renderModals (st : State) : option Modal :=
  match action st with
  | JStr "BuyIn" => Some (ActionBuyIn (accounts st) (price st))
  | JStr "Refund" => Some (ActionRefund (accounts st) (price st))
  | JStr "Transfer" => Some (ActionTransfer (accounts st))
  | _ => None
  end.

Definition renderInterface (st : State) : option Interface :=
  if loading st then None
  else Some {| modals := renderModals st;
               status := {| status_gavBalance := gavBalance st;
                            status_address := address st;
                            status_blockNumber := blockNumber st;
                            status_totalSupply := totalSupply st;
                            status_remaining := remaining st;
                            status_price := price st;
                            status_accounts := accounts st |};
               events_accounts := accounts st |}.

Definition render (st : State) : View :=
  {| view_loading := renderLoading st; view_interface := renderInterface st |}.

(** ** The action handlers *)

Definition onAction (act : JsVal) (st : State) : State :=
  {| action := act; address := address st; ethBalance := ethBalance st;
     gavBalance := gavBalance st; accounts := accounts st;
     instance := instance st; loading := loading st;
     blockNumber := blockNumber st; totalSupply := totalSupply st;
     remaining := remaining st; price := price st |}.

Definition onActionClose (st : State) : State :=
  {| action := JNull; address := address st; ethBalance := ethBalance st;
     gavBalance := gavBalance st; accounts := accounts st;
     instance := instance st; loading := loading st;
     blockNumber := blockNumber st; totalSupply := totalSupply st;
     remaining := remaining st; price := price st |}.

(** ** The reactions of a synchronization pass, on the component state *)

(** [this.setState({ blockNumber, totalSupply, remaining, price })] *)
Definition setGlobals (bn ts rem pr : Z) (st : State) : State :=
  {| action := action st; address := address st; ethBalance := ethBalance st;
     gavBalance := gavBalance st; accounts := accounts st;
     instance := instance st; loading := loading st;
     blockNumber := Some bn; totalSupply := Some ts;
     remaining := Some rem; price := Some pr |}.

(** [this.setState({ ethBalance, gavBalance, accounts })] *)
Definition setBalances (eth gav : Z) (accs : list Account.t) (st : State) : State :=
  {| action := action st; address := address st; ethBalance := eth;
     gavBalance := gav; accounts := accs;
     instance := instance st; loading := loading st;
     blockNumber := blockNumber st; totalSupply := totalSupply st;
     remaining := remaining st; price := price st |}.

(** The account objects are shared with [state.accounts]: what the pass
    assigns to them is visible there even without a [setState]. *)
Definition mutateAccounts (accs : list Account.t) (st : State) : State :=
  setBalances (ethBalance st) (gavBalance st) accs st.

(** [balances.reduce((total, balance) => total.add(balance), new BigNumber(0))] *)
Definition total (balances : list Z) : Z :=
  fold_left BigNumber.add balances 0.

Definition assign_ethBalance (v : string) (a : Account.t) : Account.t :=
  Account.mk (Account.address a) (Account.name a) (Account.balance a)
    (Some v) (Account.gavBalance a) (Account.hasGav a).

Definition assign_gavBalance (v : string) (a : Account.t) : Account.t :=
  Account.mk (Account.address a) (Account.name a) (Account.balance a)
    (Account.ethBalance a) (Some v) (Account.hasGav a).

Definition assign_hasGav (v : bool) (a : Account.t) : Account.t :=
  Account.mk (Account.address a) (Account.name a) (Account.balance a)
    (Account.ethBalance a) (Account.gavBalance a) (Some v).

(** The body of the [accounts.map] callback of the second reaction. *)
Definition refresh (ethBalance gavBalance : Z) (a : Account.t) : Account.t :=
  let a1 := assign_ethBalance (BigNumber.toFormat 3 (fromWei ethBalance)) a in
  let a2 := assign_gavBalance
              (BigNumber.toFormat 6 (BigNumber.div gavBalance DIVISOR)) a1 in
  assign_hasGav (BigNumber.gt gavBalance 0) a2.

(** [accounts.map((account, idx) => ...)]: the accounts after the callback
    ran on them in order, and the exception that stopped it, if any.  An index
    past the end of a balance array reads [undefined]: [fromWei] rejects it
    before anything is assigned, and [gavBalance.div] throws after
    [account.ethBalance] was assigned. *)
Fixpoint mapAccounts (accs : list Account.t) (ethBalances gavBalances : list Z)
  : list Account.t * option JsError :=
  match accs with
  | [] => ([], None)
  | a :: accs' =>
      match ethBalances with
      | [] => (a :: accs', Some (TypeError "not a number: undefined"))
      | e :: es =>
          match gavBalances with
          | [] =>
              (assign_ethBalance (BigNumber.toFormat 3 (fromWei e)) a :: accs',
               Some (TypeError "Cannot read property 'div' of undefined"))
          | g :: gs =>
              let '(rest, err) := mapAccounts accs' es gs in
              (refresh e g a :: rest, err)
          end
      end
  end.

(** ** Start-up: the account list *)

(** [infos[address].name || 'Unnamed'] *)
Definition accountName (infos : gmap string AccountInfo) (a : Address)
  : Settled string :=
  match infos !! a with
  | None => Rejected (TypeError "Cannot read property 'name' of undefined")
  | Some info =>
      match info_name info with
      | None => Fulfilled "Unnamed"
      | Some s => if decide (s = "") then Fulfilled "Unnamed" else Fulfilled s
      end
  end.

(** [addresses.map((address) => ({ address, name, balance: 0 }))] *)
Fixpoint enumerate (infos : gmap string AccountInfo) (addresses : list Address)
  : Settled (list Account.t) :=
  match addresses with
  | [] => Fulfilled []
  | a :: rest =>
      match accountName infos a with
      | Rejected e => Rejected e
      | Fulfilled n =>
          match enumerate infos rest with
          | Rejected e => Rejected e
          | Fulfilled accs => Fulfilled (Account.mk a n 0 None None None :: accs)
          end
      end
  end.

(** [this.setState({ loading: false, address, instance, accounts })] *)
Definition publish (addr : Address) (inst : Instance) (accs : list Account.t)
  (st : State) : State :=
  {| action := action st; address := Some addr; ethBalance := ethBalance st;
     gavBalance := gavBalance st; accounts := accs;
     instance := Some inst; loading := false;
     blockNumber := blockNumber st; totalSupply := totalSupply st;
     remaining := remaining st; price := price st |}.

(** ** The component in its environment *)

Inductive Effect :=
| Request (c : Call)
| ConsoleLog (msg : string)
| ConsoleError (e : JsError)
| Construct (abi : Abi) (at_ : Address)
| SetState (st : State)
| Subscribe (topic : string)
| Throw (e : JsError)
| Unhandled (e : JsError).

#[global] Instance Effect_eq_dec : EqDecision Effect.
Proof. solve_decision. Defined.

(** What [attachInterface]'s promise chain is waiting for. *)
Inductive StartupTask := AwaitRegistry | AwaitLookup.

(** What a pass started by [onNewBlockNumber] is waiting for: the three
    global reads, or the two balance reads of each of the addresses [queried];
    [w] holds the answers that are on their way. *)
Inductive Pass :=
| AwaitGlobals (bn : Z) (inst : Instance) (w : ChainReads)
| AwaitBalances (queried : list Address) (w : ChainReads).

(** [comp] is the component state a consumer sees, [trace] what the component
    did so far, oldest first; a [SetState] entry is a commit point and carries
    the state it publishes. *)
Record Sys := mkSys {
  comp : State;
  trace : list Effect;
  world : StartupWorld;
  startup : option StartupTask;
  subscribed : bool;
  passes : gmap nat Pass;
  next_pass : nat
}.

Definition emit (es : list Effect) (s : Sys) : Sys :=
  mkSys (comp s) (trace s ++ es) (world s) (startup s) (subscribed s)
    (passes s) (next_pass s).

Definition setState (st : State) (s : Sys) : Sys :=
  mkSys st (trace s ++ [SetState st]) (world s) (startup s) (subscribed s)
    (passes s) (next_pass s).

Definition with_comp (st : State) (s : Sys) : Sys :=
  mkSys st (trace s) (world s) (startup s) (subscribed s)
    (passes s) (next_pass s).

Definition with_startup (t : option StartupTask) (s : Sys) : Sys :=
  mkSys (comp s) (trace s) (world s) t (subscribed s) (passes s) (next_pass s).

Definition with_passes (ps : gmap nat Pass) (s : Sys) : Sys :=
  mkSys (comp s) (trace s) (world s) (startup s) (subscribed s) ps (next_pass s).

Definition spawn (p : Pass) (s : Sys) : Sys :=
  mkSys (comp s) (trace s) (world s) (startup s) (subscribed s)
    (<[next_pass s := p]> (passes s)) (S (next_pass s)).

Definition subscribe (topic : string) (s : Sys) : Sys :=
  mkSys (comp s) (trace s ++ [Subscribe topic]) (world s) (startup s) true
    (passes s) (next_pass s).

(** *** [onNewBlockNumber] *)

Definition balanceRequests (accs : list Account.t) : list Effect :=
  map (fun a => Request (BalanceOf (Account.address a))) accs ++
  map (fun a => Request (GetBalance (Account.address a))) accs.

(** The first [then]: the three global reads resolved. *)
Definition pass_globals (pid : nat) (bn : Z) (inst : Instance) (w : ChainReads)
  (r : Z * Z * Z) (s : Sys) : Sys :=
  let '(ts, rem, pr) := r in
  let s1 := setState (setGlobals bn ts rem pr (comp s)) s in
  let accs := accounts (comp s1) in
  with_passes (<[pid := AwaitBalances (map Account.address accs) w]> (passes s1))
    (emit (balanceRequests accs) s1).

(** The second [then]: every balance read resolved. *)
Definition pass_balances (pid : nat) (r : list Z * list Z) (s : Sys) : Sys :=
  let '(gavBalances, ethBalances) := r in
  let st := comp s in
  let '(accs, thrown) := mapAccounts (accounts st) ethBalances gavBalances in
  let s1 := with_passes (delete pid (passes s)) s in
  match thrown with
  | Some e => emit [Unhandled e] (with_comp (mutateAccounts accs st) s1)
  | None => setState (setBalances (total ethBalances) (total gavBalances) accs st) s1
  end.

(** The chain has no [catch]: a rejection ends the pass unhandled. *)
Definition pass_rejected (pid : nat) (e : JsError) (s : Sys) : Sys :=
  emit [Unhandled e] (with_passes (delete pid (passes s)) s).

Definition onNewBlockNumber (bn : Z) (w : ChainReads) (s : Sys) : Sys :=
  match instance (comp s) with
  | None => emit [Throw (TypeError "Cannot read property 'totalSupply' of null")] s
  | Some inst =>
      spawn (AwaitGlobals bn inst w)
        (emit [Request TotalSupply; Request Remaining; Request Price] s)
  end.

(** *** [attachInterface] *)

(** The final [catch]. *)
Definition attach_catch (e : JsError) (s : Sys) : Sys :=
  with_startup None (emit [ConsoleError e] s).

(** The first [then]: the registry address resolved. *)
Definition attach_registry (registry : Address) (s : Sys) : Sys :=
  let s1 := emit [ConsoleLog ("the registry was found at " ++ registry)%string;
                  Construct registryAbi registry] s in
  match newContract_throws (world s) registryAbi registry with
  | Some e => attach_catch e s1
  | None =>
      with_startup (Some AwaitLookup)
        (emit [Request (GetAddress (sha3 "gavcoin") "A");
               Request ListAccounts; Request AccountsInfo] s1)
  end.

(** The second [then]: contract address, account list and account infos
    resolved. *)
Definition attach_lookup (r : Address * list Address * gmap string AccountInfo)
  (s : Sys) : Sys :=
  let '(addr, addresses, infos) := r in
  let s1 := emit [ConsoleLog ("gavcoin was found at " ++ addr)%string;
                  Construct gavcoinAbi addr] s in
  match newContract_throws (world s) gavcoinAbi addr with
  | Some e => attach_catch e s1
  | None =>
      match enumerate infos addresses with
      | Rejected e => attach_catch e s1
      | Fulfilled accs =>
          let st := publish addr (newContract gavcoinAbi addr) accs (comp s1) in
          with_startup None (subscribe "eth.blockNumber" (setState st s1))
      end
  end.

Definition attachInterface (s : Sys) : Sys :=
  with_startup (Some AwaitRegistry) (emit [Request RegistryAddress] s).

Definition componentDidMount (w : StartupWorld) : Sys :=
  attachInterface (mkSys initial [] w None false ∅ 0%nat).

(** *** The event loop *)

Inductive Event :=
| StartupSettles
| Block (bn : Z) (w : ChainReads)
| PassSettles (pid : nat)
| Click (act : JsVal)
| CloseModal.

Definition startup_settles (s : Sys) : Sys :=
  match startup s with
  | None => s
  | Some AwaitRegistry =>
      match registryAddress (world s) with
      | Fulfilled registry => attach_registry registry s
      | Rejected e => attach_catch e s
      end
  | Some AwaitLookup =>
      match Promise.all3 (getAddress (world s)) (listAccounts (world s))
              (accountsInfo (world s)) with
      | Fulfilled r => attach_lookup r s
      | Rejected e => attach_catch e s
      end
  end.

Definition pass_settles (pid : nat) (s : Sys) : Sys :=
  match passes s !! pid with
  | None => s
  | Some (AwaitGlobals bn inst w) =>
      match Promise.all3 (totalSupply_call w) (remaining_call w) (price_call w) with
      | Fulfilled r => pass_globals pid bn inst w r s
      | Rejected e => pass_rejected pid e s
      end
  | Some (AwaitBalances queried w) =>
      let gavQueries := map (balanceOf_call w) queried in
      let ethQueries := map (getBalance_call w) queried in
      match Promise.all2 (Promise.all gavQueries) (Promise.all ethQueries) with
      | Fulfilled r => pass_balances pid r s
      | Rejected e => pass_rejected pid e s
      end
  end.

(** The notifier calls the handler only once it is subscribed; [onAction] is
    handed to [Actions] and [onActionClose] to the modal, which exist only
    while [renderInterface] renders them. *)
Definition step (s : Sys) (ev : Event) : Sys :=
  match ev with
  | StartupSettles => startup_settles s
  | Block bn w => if subscribed s then onNewBlockNumber bn w s else s
  | PassSettles pid => pass_settles pid s
  | Click act =>
      match renderInterface (comp s) with
      | Some _ => setState (onAction act (comp s)) s
      | None => s
      end
  | CloseModal =>
      match renderInterface (comp s) with
      | Some ui =>
          match modals ui with
          | Some _ => setState (onActionClose (comp s)) s
          | None => s
          end
      | None => s
      end
  end.

Definition run (s : Sys) (evs : list Event) : Sys := fold_left step evs s.

(** A session: the component is mounted once, then events arrive. *)
Definition session (w : StartupWorld) (evs : list Event) : Sys :=
  run (componentDidMount w) evs.

(** ** The action request state machine *)

Inductive Kind := BuyIn | Refund | Transfer.

#[global] Instance Kind_eq_dec : EqDecision Kind.
Proof. solve_decision. Defined.

(** The string [Actions] passes for each kind, matched by [renderModals]. *)
Definition kind_name (k : Kind) : string :=
  match k with BuyIn => "BuyIn" | Refund => "Refund" | Transfer => "Transfer" end.

(** The stored value of an action request; [None] is no open action. *)
Definition request_value (r : option Kind) : JsVal :=
  match r with None => JNull | Some k => JStr (kind_name k) end.

Definition active (st : State) (r : option Kind) : Prop :=
  action st = request_value r.

Inductive ActionOp := open (k : Kind) | close.

Definition apply_op (st : State) (op : ActionOp) : State :=
  match op with
  | open k => onAction (JStr (kind_name k)) st
  | close => onActionClose st
  end.

Definition last_request (r0 : option Kind) (ops : list ActionOp) : option Kind :=
  fold_left (fun r op => match op with open k => Some k | close => None end) ops r0.

(** ** Sample sessions *)

Module Sample.

Definition infos : gmap string AccountInfo :=
  <["0x01" := {| info_name := Some "Main" |}]>
    (<["0x02" := {| info_name := None |}]> ∅).

Definition world : StartupWorld :=
  {| registryAddress := Fulfilled "0xreg";
     getAddress := Fulfilled "0xgav";
     listAccounts := Fulfilled ["0x01"; "0x02"];
     accountsInfo := Fulfilled infos;
     newContract_throws := fun _ _ => None |}.

(** The registry cannot be reached. *)
Definition offline : StartupWorld :=
  {| registryAddress := Rejected (RpcError "connection refused");
     getAddress := Fulfilled "0xgav";
     listAccounts := Fulfilled ["0x01"; "0x02"];
     accountsInfo := Fulfilled infos;
     newContract_throws := fun _ _ => None |}.

Definition reads : ChainReads :=
  {| totalSupply_call := Fulfilled 1000;
     remaining_call := Fulfilled 400;
     price_call := Fulfilled 3;
     balanceOf_call := fun a =>
       if decide (a = "0x01") then Fulfilled 1500000 else Fulfilled 0;
     getBalance_call := fun a =>
       if decide (a = "0x01") then Fulfilled (2 * 10 ^ 18)
       else Fulfilled 1999500000000000000 |}.

(** The token balance of the second account cannot be read. *)
Definition balance_fails : ChainReads :=
  {| totalSupply_call := Fulfilled 1000;
     remaining_call := Fulfilled 400;
     price_call := Fulfilled 3;
     balanceOf_call := fun a =>
       if decide (a = "0x01") then Fulfilled 1500000
       else Rejected (RpcError "timeout");
     getBalance_call := fun a => Fulfilled (2 * 10 ^ 18) |}.

(** The total supply cannot be read. *)
Definition supply_fails : ChainReads :=
  {| totalSupply_call := Rejected (RpcError "timeout");
     remaining_call := Fulfilled 400;
     price_call := Fulfilled 3;
     balanceOf_call := fun a => Fulfilled 0;
     getBalance_call := fun a => Fulfilled 0 |}.

Definition started : list Event := [StartupSettles; StartupSettles].

End Sample.

(** ** Account enumeration, as described *)

(** The label the identity store holds for an address, if any. *)
Definition label (infos : gmap string AccountInfo) (a : Address) : option string :=
  infos !! a ≫= info_name.

Definition displayName (l : option string) : string :=
  match l with
  | Some s => if decide (s = "") then "Unnamed" else s
  | None => "Unnamed"
  end.

(** The account the enumeration creates for an address. *)
Definition freshAccount (infos : gmap string AccountInfo) (a : Address) : Account.t :=
  Account.mk a (displayName (label infos a)) 0 None None None.

(** Every address gets an account named by its label or ["Unnamed"], with a
    zero balance and [hasGav] set to [false]. *)
Definition enumerated_with_hasGav_false
  (infos : gmap string AccountInfo) (addresses : list Address) : Prop :=
  exists accs,
    enumerate infos addresses = Fulfilled accs /\
    Forall2 (fun a acc =>
               Account.address acc = a /\
               Account.name acc = default "Unnamed" (label infos a) /\
               Account.balance acc = 0 /\
               Account.hasGav acc = Some false) addresses accs.

(** ** The shape of a session *)

Definition is_subscribe (e : Effect) : bool :=
  match e with Subscribe _ => true | _ => false end.

Definition is_commit (e : Effect) : bool :=
  match e with SetState _ => true | _ => false end.

(** The reads a synchronization pass issues. *)
Definition is_pass_request (e : Effect) : bool :=
  match e with
  | Request TotalSupply | Request Remaining | Request Price
  | Request (BalanceOf _) | Request (GetBalance _) => true
  | _ => false
  end.

(** What only [attachInterface] does. *)
Definition is_startup_effect (e : Effect) : bool :=
  match e with
  | Request RegistryAddress | Request (GetAddress _ _)
  | Request ListAccounts | Request AccountsInfo
  | Construct _ _ | Subscribe _ => true
  | _ => false
  end.

(** What the component has done when it waits for the registry lookups. *)
Definition lookup_trace (registry : Address) : list Effect :=
  [Request RegistryAddress;
   ConsoleLog ("the registry was found at " ++ registry)%string;
   Construct registryAbi registry;
   Request (GetAddress (sha3 "gavcoin") "A");
   Request ListAccounts;
   Request AccountsInfo].

(** What the component has done when it is about to subscribe. *)
Definition startup_trace (registry addr : Address) (st0 : State) : list Effect :=
  lookup_trace registry ++
  [ConsoleLog ("gavcoin was found at " ++ addr)%string;
   Construct gavcoinAbi addr;
   SetState st0].

(** Every step of the start-up went through. *)
Definition StartupSuccess (w : StartupWorld) (registry addr : Address)
  (accs : list Account.t) : Prop :=
  registryAddress w = Fulfilled registry /\
  newContract_throws w registryAbi registry = None /\
  getAddress w = Fulfilled addr /\
  newContract_throws w gavcoinAbi addr = None /\
  exists addresses infos,
    listAccounts w = Fulfilled addresses /\
    accountsInfo w = Fulfilled infos /\
    enumerate infos addresses = Fulfilled accs.

(** Some step of the start-up fails before the initial state is published. *)
Inductive StartupFailure (w : StartupWorld) : Prop :=
| registry_unreachable e :
    registryAddress w = Rejected e -> StartupFailure w
| registry_binding_fails registry e :
    registryAddress w = Fulfilled registry ->
    newContract_throws w registryAbi registry = Some e -> StartupFailure w
| contract_lookup_fails e :
    getAddress w = Rejected e -> StartupFailure w
| contract_binding_fails addr e :
    getAddress w = Fulfilled addr ->
    newContract_throws w gavcoinAbi addr = Some e -> StartupFailure w
| listing_fails e :
    listAccounts w = Rejected e -> StartupFailure w
| infos_fail e :
    accountsInfo w = Rejected e -> StartupFailure w
| info_missing addresses infos e :
    listAccounts w = Fulfilled addresses ->
    accountsInfo w = Fulfilled infos ->
    enumerate infos addresses = Rejected e -> StartupFailure w.

(** Nothing but logging happened after the first request. *)
Definition quiet (e : Effect) : bool :=
  match e with
  | ConsoleLog _ | ConsoleError _ | Construct _ _
  | Request (GetAddress _ _) | Request ListAccounts | Request AccountsInfo => true
  | _ => false
  end.

(** The four situations a session can be in. *)
Inductive Phase (s : Sys) : Prop :=
| phase_registry :
    startup s = Some AwaitRegistry -> subscribed s = false ->
    comp s = initial -> passes s = ∅ ->
    trace s = [Request RegistryAddress] -> Phase s
| phase_lookup registry :
    startup s = Some AwaitLookup -> subscribed s = false ->
    comp s = initial -> passes s = ∅ ->
    registryAddress (world s) = Fulfilled registry ->
    newContract_throws (world s) registryAbi registry = None ->
    trace s = lookup_trace registry -> Phase s
| phase_failed tl e :
    startup s = None -> subscribed s = false ->
    comp s = initial -> passes s = ∅ ->
    trace s = (Request RegistryAddress :: tl ++ [ConsoleError e]) ->
    forallb quiet tl = true -> Phase s
| phase_running registry addr accs rest :
    startup s = None -> subscribed s = true ->
    StartupSuccess (world s) registry addr accs ->
    trace s =
      (startup_trace registry addr
         (publish addr (newContract gavcoinAbi addr) accs initial)
       ++ Subscribe "eth.blockNumber" :: rest) ->
    forallb (fun e => negb (is_startup_effect e)) rest = true ->
    loading (comp s) = false ->
    address (comp s) = Some addr ->
    instance (comp s) = Some (newContract gavcoinAbi addr) ->
    map Account.address (accounts (comp s)) = map Account.address accs ->
    (forall pid queried c, passes s !! pid = Some (AwaitBalances queried c) ->
       queried = map Account.address (accounts (comp s))) ->
    (forall pid, is_Some (passes s !! pid) -> (pid < next_pass s)%nat) ->
    Phase s.

Fixpoint settles (evs : list Event) : nat :=
  match evs with
  | [] => O
  | StartupSettles :: evs' => S (settles evs')
  | _ :: evs' => settles evs'
  end.

Definition is_registry_request (e : Effect) : bool :=
  match e with Request RegistryAddress => true | _ => false end.

Definition is_console_error (e : Effect) : bool :=
  match e with ConsoleError _ => true | _ => false end.

Definition is_throw (e : Effect) : bool :=
  match e with Throw _ => true | _ => false end.

(** How many more settlements the start-up chain needs to come to its end. *)
Definition startup_steps_left (s : Sys) : nat :=
  match startup s with
  | Some AwaitRegistry => 2
  | Some AwaitLookup => 1
  | None => 0
  end.

(** ** What a pass is described to publish *)

Definition settled_value {A} (p : Settled A) : option A :=
  match p with Fulfilled v => Some v | Rejected _ => None end.

(** The state shows the global counters the pass for block [bn] read. *)
Definition shows_globals (bn : Z) (c : ChainReads) (st : State) : Prop :=
  blockNumber st = Some bn /\
  totalSupply st = settled_value (totalSupply_call c) /\
  remaining st = settled_value (remaining_call c) /\
  price st = settled_value (price_call c).

(** The accounts after a pass that read [eths] and [gavs] for them. *)
Definition refreshed (accs : list Account.t) (eths gavs : list Z) : list Account.t :=
  zip_with (fun a eg => refresh eg.1 eg.2 a) accs (zip eths gavs).

(** The state shows the balances the pass read. *)
Definition shows_balances (c : ChainReads) (st : State) : Prop :=
  exists gavs eths,
    Promise.all (map (fun a => balanceOf_call c (Account.address a)) (accounts st))
      = Fulfilled gavs /\
    Promise.all (map (fun a => getBalance_call c (Account.address a)) (accounts st))
      = Fulfilled eths /\
    gavBalance st = total gavs /\
    ethBalance st = total eths /\
    accounts st = refreshed (accounts st) eths gavs.

(** The totals are the sums of the raw reads divided by [DIVISOR] and
    converted from wei: [gavBalance = sum / 10^6] and
    [ethBalance = sum / 10^18], exactly. *)
Definition totals_scaled (gavs eths : list Z) (st : State) : Prop :=
  gavBalance st * DIVISOR = foldr Z.add 0 gavs /\
  ethBalance st * WEI = foldr Z.add 0 eths.

(** The handler is subscribed, and the next block notification starts a
    pass of its own. *)
Definition still_listening (s : Sys) : Prop :=
  subscribed s = true /\
  forall bn c, exists inst,
    passes (step s (Block bn c)) !! next_pass s = Some (AwaitGlobals bn inst c).

(** One pass from the notification to its end, with nothing in between. *)
Definition whole_pass (bn : Z) (c : ChainReads) (s : Sys) : Sys :=
  run s [Block bn c; PassSettles (next_pass s); PassSettles (next_pass s)].

(** ** The context handed to the children *)

(** The module-level [api] and [muiTheme] constants. *)
Inductive ApiHandle := api.
Inductive Theme := muiTheme.

Record ChildContext := {
  ctx_api : ApiHandle;
  ctx_instance : option Instance;
  ctx_muiTheme : Theme
}.

Definition getChildContext (st : State) : ChildContext :=
  {| ctx_api := api; ctx_instance := instance st; ctx_muiTheme := muiTheme |}.

(** ** Further vocabulary for sessions *)

(** What identifies an account and never changes: the properties the
    enumeration gave it. *)
Definition ident (a : Account.t) : Address * string * Z :=
  (Account.address a, Account.name a, Account.balance a).

(** The events that come from the user interface. *)
Definition is_ui_event (ev : Event) : bool :=
  match ev with Click _ | CloseModal => true | _ => false end.

(** Neither an exception thrown to a caller nor a [console.error]. *)
Definition is_silent (e : Effect) : bool :=
  negb (is_throw e) && negb (is_console_error e).

Definition is_balance_request (e : Effect) : bool :=
  match e with
  | Request (BalanceOf _) | Request (GetBalance _) => true
  | _ => false
  end.

(** The modal of a kind. *)
Definition modal_of (k : Kind) (st : State) : Modal :=
  match k with
  | BuyIn => ActionBuyIn (accounts st) (price st)
  | Refund => ActionRefund (accounts st) (price st)
  | Transfer => ActionTransfer (accounts st)
  end.

(** ** Reading a printed decimal *)

(** The reading of a decimal numeral, independent of how it was printed:
    digits are read most significant first. *)
Definition is_digit (c : ascii) : bool :=
  (48 <=? nat_of_ascii c)%nat && (nat_of_ascii c <=? 57)%nat.

Definition digit_value (c : ascii) : Z := Z.of_nat (nat_of_ascii c) - 48.

Definition numeral_value (cs : list ascii) : Z :=
  fold_left (fun acc c => 10 * acc + digit_value c) cs 0.

Fixpoint before_point (cs : list ascii) : list ascii :=
  match cs with
  | [] => []
  | c :: cs' => if Ascii.eqb c "." then [] else c :: before_point cs'
  end.

Fixpoint after_point (cs : list ascii) : list ascii :=
  match cs with
  | [] => []
  | c :: cs' => if Ascii.eqb c "." then cs' else after_point cs'
  end.

(** The digits around the decimal point, group separators in the integer
    part skipped: the mantissa and the number of decimals. *)
Definition read_unsigned (body : list ascii) : option (Z * nat) :=
  let int_part := List.filter (fun c => negb (Ascii.eqb c ",")) (before_point body) in
  let frac_part := after_point body in
  if forallb is_digit (int_part ++ frac_part)
     && negb (Nat.eqb (length int_part) 0)
  then Some (numeral_value (int_part ++ frac_part), length frac_part)
  else None.

(** What a formatted amount denotes: [Some (m, k)] for the number
    [m / 10^k], where [k] is the number of digits after the decimal point.
    Anything else than an optional sign, digits, group separators and one
    point is not a number. *)
Definition read_fixed (s : string) : option (Z * nat) :=
  match list_ascii_of_string s with
  | [] => None
  | c :: rest =>
      if Ascii.eqb c "-"
      then match read_unsigned rest with
           | Some (m, k) => Some (- m, k)
           | None => None
           end
      else read_unsigned (c :: rest)
  end.

(** A decimal numeral of the standard library, read most significant digit
    first, continuing from [acc]. *)
Fixpoint uint_value (d : Init.Decimal.uint) (acc : Z) : Z :=
  match d with
  | Init.Decimal.Nil => acc
  | Init.Decimal.D0 d => uint_value d (10 * acc)
  | Init.Decimal.D1 d => uint_value d (10 * acc + 1)
  | Init.Decimal.D2 d => uint_value d (10 * acc + 2)
  | Init.Decimal.D3 d => uint_value d (10 * acc + 3)
  | Init.Decimal.D4 d => uint_value d (10 * acc + 4)
  | Init.Decimal.D5 d => uint_value d (10 * acc + 5)
  | Init.Decimal.D6 d => uint_value d (10 * acc + 6)
  | Init.Decimal.D7 d => uint_value d (10 * acc + 7)
  | Init.Decimal.D8 d => uint_value d (10 * acc + 8)
  | Init.Decimal.D9 d => uint_value d (10 * acc + 9)
  end.

(** * Properties *)

(** ** Rendering and the action requests *)

Lemma renderModals_other (v : JsVal) (st : State) :
  v ≠ JStr "BuyIn" -> v ≠ JStr "Refund" -> v ≠ JStr "Transfer" ->
  renderModals (onAction v st) = None.
Proof.
  intros Hb Hr Ht. unfold renderModals. simpl.
  destruct v as [| |b|n|s]; try reflexivity.
  destruct (decide (s = "BuyIn")) as [->|]; [congruence|].
  destruct (decide (s = "Refund")) as [->|]; [congruence|].
  destruct (decide (s = "Transfer")) as [->|]; [congruence|].
  repeat (match goal with
          | |- context [match ?x with _ => _ end] => destruct x; try congruence
          end).
Qed.

Lemma request_value_inj (r r' : option Kind) :
  request_value r = request_value r' -> r = r'.
Proof. destruct r as [[]|], r' as [[]|]; simpl; congruence. Qed.

Lemma active_unique (st : State) (r r' : option Kind) :
  active st r -> active st r' -> r' = r.
Proof. unfold active. intros H H'. apply request_value_inj. congruence. Qed.

Lemma apply_op_active (st : State) (op : ActionOp) :
  active (apply_op st op)
    (match op with open k => Some k | close => None end).
Proof. destruct op; reflexivity. Qed.

Lemma apply_op_rest (st : State) (op : ActionOp) :
  onActionClose (apply_op st op) = onActionClose st.
Proof. destruct op; reflexivity. Qed.

Lemma run_ops_active (ops : list ActionOp) (st : State) (r0 : option Kind) :
  active st r0 -> active (fold_left apply_op ops st) (last_request r0 ops).
Proof.
  revert st r0. induction ops as [|op ops IH]; intros st r0 H; [exact H|].
  simpl. apply IH. apply apply_op_active.
Qed.

Lemma run_ops_rest (ops : list ActionOp) (st : State) :
  onActionClose (fold_left apply_op ops st) = onActionClose st.
Proof.
  revert st. induction ops as [|op ops IH]; intros st; [reflexivity|].
  simpl. rewrite IH. apply apply_op_rest.
Qed.

(** C6.  Started with no action open, after any finite sequence of
    [open kind] and [close] calls exactly one of None, BuyIn, Refund and
    Transfer is active, namely the one the last call asked for; [open kind]
    leads from any state to [kind], [close] from any state to None, and
    neither touches anything but the action. *)
Theorem action_exclusivity (st : State) (ops : list ActionOp) :
  active st None ->
  let st' := fold_left apply_op ops st in
  (exists r, active st' r /\ forall r', active st' r' -> r' = r) /\
  active st' (last_request None ops) /\
  onActionClose st' = onActionClose st /\
  (forall s k, active (apply_op s (open k)) (Some k)) /\
  (forall s, active (apply_op s close) None).
Proof.
  intros H st'.
  assert (Hlast : active st' (last_request None ops))
    by (apply run_ops_active; exact H).
  repeat split.
  - exists (last_request None ops). split; [exact Hlast|].
    intros r' Hr'. exact (active_unique _ _ _ Hlast Hr').
  - exact Hlast.
  - apply run_ops_rest.
Qed.

Lemma action_exclusivity_witness :
  active initial None /\
  active (fold_left apply_op [open BuyIn; open Transfer; close; open Refund] initial)
    (Some Refund).
Proof.
  split; [reflexivity|].
  exact (proj1 (proj2 (action_exclusivity initial
           [open BuyIn; open Transfer; close; open Refund] eq_refl))).
Defined.

(** C10.  [onAction] stores whatever value it is given, and [onActionClose]
    afterwards leaves no action open.  For a value other than the three kinds
    no modal is rendered and the whole view is the one of the state with no
    action open. *)
Theorem onAction_open_set (v : JsVal) (st : State) :
  action (onAction v st) = v /\
  active (onActionClose (onAction v st)) None /\
  onActionClose (onAction v st) = onActionClose st /\
  (v ≠ JStr "BuyIn" -> v ≠ JStr "Refund" -> v ≠ JStr "Transfer" ->
   renderModals (onAction v st) = None /\
   render (onAction v st) = render (onActionClose st)).
Proof.
  split; [reflexivity|]. split; [reflexivity|]. split; [reflexivity|].
  intros Hb Hr Ht.
  pose proof (renderModals_other v st Hb Hr Ht) as Hm.
  split; [exact Hm|].
  - unfold render, renderInterface, renderLoading. simpl.
    destruct (loading st); simpl; [reflexivity|].
    rewrite Hm. reflexivity.
Qed.

Lemma onAction_open_set_witness :
  let st := publish "0xgav" (newContract gavcoinAbi "0xgav") [] initial in
  action (onAction (JStr "Sell") st) = JStr "Sell" /\
  render (onAction (JNum 3) st) = render (onActionClose st).
Proof.
  intros st. split.
  - apply (onAction_open_set (JStr "Sell") st).
  - apply (onAction_open_set (JNum 3) st); discriminate.
Defined.

(** ** Account enumeration *)

Lemma accountName_entry (infos : gmap string AccountInfo) (a : Address) :
  is_Some (infos !! a) ->
  accountName infos a = Fulfilled (displayName (label infos a)).
Proof.
  intros [info Hinfo]. unfold accountName, label, displayName.
  rewrite Hinfo. simpl. destruct (info_name info) as [s|]; [|reflexivity].
  destruct (decide (s = "")); reflexivity.
Qed.

(** At the sample store the enumeration leaves [hasGav] unassigned: the
    description with [hasGav = false] does not hold of it. *)
Lemma enumerate_hasGav_unset :
  enumerate Sample.infos ["0x01"; "0x02"] =
    Fulfilled [Account.mk "0x01" "Main" 0 None None None;
               Account.mk "0x02" "Unnamed" 0 None None None] /\
  ~ enumerated_with_hasGav_false Sample.infos ["0x01"; "0x02"].
Proof.
  assert (He : enumerate Sample.infos ["0x01"; "0x02"] =
    Fulfilled [Account.mk "0x01" "Main" 0 None None None;
               Account.mk "0x02" "Unnamed" 0 None None None])
    by (vm_compute; reflexivity).
  split; [exact He|].
  intros (accs & Hacc & Hall). rewrite He in Hacc.
  injection Hacc as <-.
  inversion Hall as [|? ? ? ? (_ & _ & _ & Hgav) _]; subst.
  simpl in Hgav. discriminate.
Qed.

(** C8, amended.  When the account infos have an entry for every listed
    address, the enumeration produces one account per address, in order:
    [{ address, name, balance: 0 }] with the entry's name, or ["Unnamed"] when
    the name is missing or empty, and with [ethBalance], [gavBalance] and
    [hasGav] not assigned yet. *)
Theorem enumerate_accounts (infos : gmap string AccountInfo) (addresses : list Address) :
  (forall a, a ∈ addresses -> is_Some (infos !! a)) ->
  enumerate infos addresses = Fulfilled (map (freshAccount infos) addresses) /\
  forall i a, addresses !! i = Some a ->
    exists acc, map (freshAccount infos) addresses !! i = Some acc /\
      Account.address acc = a /\
      Account.name acc = displayName (label infos a) /\
      Account.balance acc = 0 /\
      Account.ethBalance acc = None /\
      Account.gavBalance acc = None /\
      Account.hasGav acc = None.
Proof.
  intros Hentries. split.
  - induction addresses as [|a rest IH]; [reflexivity|].
    simpl. rewrite accountName_entry by (apply Hentries; left).
    rewrite IH by (intros b Hb; apply Hentries; right; exact Hb).
    reflexivity.
  - intros i a Hi. exists (freshAccount infos a).
    rewrite list_lookup_fmap, Hi. repeat split.
Qed.

Lemma enumerate_accounts_witness :
  enumerate Sample.infos ["0x01"; "0x02"] =
    Fulfilled (map (freshAccount Sample.infos) ["0x01"; "0x02"]).
Proof.
  apply (enumerate_accounts Sample.infos ["0x01"; "0x02"]).
  intros a Ha.
  apply elem_of_cons in Ha as [->|Ha]; [vm_compute; eauto|].
  apply elem_of_cons in Ha as [->|Ha]; [vm_compute; eauto|].
  inversion Ha.
Defined.

(** ** Lists of promises and of balances *)

Lemma all_fulfilled {A B} (f : A -> Settled B) (l : list A) (vs : list B) :
  Promise.all (map f l) = Fulfilled vs ->
  Forall2 (fun x v => f x = Fulfilled v) l vs.
Proof.
  revert vs. induction l as [|x l IH]; intros vs H; simpl in H.
  - injection H as <-. constructor.
  - destruct (f x) as [v|e] eqn:Hx; [|discriminate].
    destruct (Promise.all (map f l)) as [vs'|e] eqn:Hl; [|discriminate].
    injection H as <-. constructor; [exact Hx|]. apply IH. reflexivity.
Qed.

Lemma all_rejected {A B} (f : A -> Settled B) (l : list A) (x : A) (e : JsError) :
  x ∈ l -> f x = Rejected e -> exists e', Promise.all (map f l) = Rejected e'.
Proof.
  intros Hin Hx. induction l as [|y l IH]; [inversion Hin|].
  simpl. destruct (f y) as [v|e0] eqn:Hy; [|eauto].
  apply elem_of_cons in Hin as [->|Hin]; [congruence|].
  destruct (IH Hin) as [e' ->]. eauto.
Qed.

Lemma total_foldr (l : list Z) : total l = foldr Z.add 0 l.
Proof.
  unfold total, BigNumber.add.
  assert (H : forall acc, fold_left Z.add l acc = acc + foldr Z.add 0 l).
  { induction l as [|x l IH]; intros acc; simpl; [lia|]. rewrite IH. lia. }
  rewrite H. lia.
Qed.

Lemma mapAccounts_addresses (accs : list Account.t) (es gs : list Z) :
  map Account.address (mapAccounts accs es gs).1 = map Account.address accs.
Proof.
  revert es gs. induction accs as [|a accs IH]; intros es gs; [reflexivity|].
  simpl. destruct es as [|e es]; [reflexivity|].
  destruct gs as [|g gs]; [reflexivity|].
  specialize (IH es gs). destruct (mapAccounts accs es gs) as [rest err].
  simpl in *. rewrite IH. reflexivity.
Qed.

Lemma mapAccounts_aligned (accs : list Account.t) (es gs : list Z) :
  length es = length accs -> length gs = length accs ->
  mapAccounts accs es gs = (refreshed accs es gs, None).
Proof.
  revert es gs. induction accs as [|a accs IH]; intros es gs He Hg; [reflexivity|].
  destruct es as [|e es]; [discriminate|]. destruct gs as [|g gs]; [discriminate|].
  simpl in *. rewrite IH by lia. reflexivity.
Qed.

Lemma refreshed_lookup (accs : list Account.t) (es gs : list Z) (i : nat)
  (a : Account.t) (e g : Z) :
  accs !! i = Some a -> es !! i = Some e -> gs !! i = Some g ->
  refreshed accs es gs !! i = Some (refresh e g a).
Proof.
  intros Ha He Hg. unfold refreshed. rewrite !lookup_zip_with, Ha, He, Hg. reflexivity.
Qed.

(** ** Decimal scaling *)

Lemma round_half_up_exact (k d : Z) :
  0 < d -> BigNumber.round_half_up (k * d) d = k.
Proof.
  intros Hd. unfold BigNumber.round_half_up.
  rewrite Z.abs_mul, (Z.abs_eq d) by lia.
  replace (2 * (Z.abs k * d) + d) with (d + Z.abs k * (2 * d)) by lia.
  rewrite Z.div_add by lia. rewrite (Z.div_small d (2 * d)) by lia.
  rewrite Z.sgn_mul, (Z.sgn_pos d) by lia. lia.
Qed.

Lemma round_half_up_cancel (n d c : Z) :
  0 < d -> 0 < c ->
  BigNumber.round_half_up (n * c) (d * c) = BigNumber.round_half_up n d.
Proof.
  intros Hd Hc. unfold BigNumber.round_half_up.
  rewrite Z.abs_mul, (Z.abs_eq c) by lia.
  rewrite Z.sgn_mul, (Z.sgn_pos c) by lia.
  replace (2 * (Z.abs n * c) + d * c) with ((2 * Z.abs n + d) * c) by lia.
  replace (2 * (d * c)) with ((2 * d) * c) by lia.
  rewrite Z.div_mul_cancel_r by lia. lia.
Qed.

(** Rounding picks a nearest multiple. *)
Lemma round_half_up_nearest (n d : Z) :
  0 < d -> 2 * Z.abs (BigNumber.round_half_up n d * d - n) <= d.
Proof.
  intros Hd. unfold BigNumber.round_half_up.
  pose proof (Z.div_mod (2 * Z.abs n + d) (2 * d) ltac:(lia)) as Hdm.
  pose proof (Z.mod_pos_bound (2 * Z.abs n + d) (2 * d) ltac:(lia)) as Hb.
  set (q := (2 * Z.abs n + d) / (2 * d)) in *.
  destruct (Z.sgn_spec n) as [[Hn ->]|[[Hn ->]|[Hn ->]]]; nia.
Qed.

(** A token amount is printed as itself with six decimals. *)
Lemma toFormat_gav (g : Z) :
  BigNumber.toFormat 6 (BigNumber.div g DIVISOR) = BigNumber.print_fixed 6 g.
Proof.
  unfold BigNumber.toFormat, BigNumber.rescale, BigNumber.div. simpl BigNumber.mant.
  simpl BigNumber.places. f_equal.
  replace (g * BigNumber.pow10 BigNumber.DECIMAL_PLACES)
    with ((g * 10 ^ 14) * DIVISOR)
    by (replace (BigNumber.pow10 BigNumber.DECIMAL_PLACES) with (10 ^ 14 * DIVISOR)
          by reflexivity; lia).
  rewrite round_half_up_exact by reflexivity.
  replace (g * 10 ^ 14 * BigNumber.pow10 6)
    with (g * BigNumber.pow10 BigNumber.DECIMAL_PLACES)
    by (replace (BigNumber.pow10 BigNumber.DECIMAL_PLACES)
          with (10 ^ 14 * BigNumber.pow10 6) by reflexivity; lia).
  apply round_half_up_exact. reflexivity.
Qed.

(** A native amount is printed in thousandths of the unit, rounded. *)
Lemma toFormat_eth (e : Z) :
  BigNumber.toFormat 3 (fromWei e) =
  BigNumber.print_fixed 3 (BigNumber.round_half_up e (10 ^ 15)).
Proof.
  unfold BigNumber.toFormat, BigNumber.rescale, fromWei, BigNumber.div.
  simpl BigNumber.mant. simpl BigNumber.places. f_equal.
  replace (e * BigNumber.pow10 BigNumber.DECIMAL_PLACES)
    with ((e * 100) * WEI)
    by (replace (BigNumber.pow10 BigNumber.DECIMAL_PLACES) with (100 * WEI)
          by reflexivity; lia).
  rewrite round_half_up_exact by reflexivity.
  replace (e * 100 * BigNumber.pow10 3) with (e * 10 ^ 5)
    by (replace (BigNumber.pow10 3) with 1000 by reflexivity; lia).
  replace (BigNumber.pow10 BigNumber.DECIMAL_PLACES) with (10 ^ 15 * 10 ^ 5)
    by reflexivity.
  apply round_half_up_cancel; reflexivity.
Qed.

(** ** Reading back what was printed *)

Lemma fold_value_shift (cs : list ascii) (acc : Z) :
  fold_left (fun a c => 10 * a + digit_value c) cs acc
  = acc * 10 ^ Z.of_nat (length cs) + numeral_value cs.
Proof.
  unfold numeral_value. revert acc.
  induction cs as [|c cs IH]; intros acc; simpl fold_left.
  - simpl. lia.
  - rewrite IH, (IH (10 * 0 + digit_value c)).
    change (length (c :: cs)) with (S (length cs)).
    rewrite Nat2Z.inj_succ, Z.pow_succ_r by lia. lia.
Qed.

Lemma numeral_value_app (l1 l2 : list ascii) :
  numeral_value (l1 ++ l2)
  = numeral_value l1 * 10 ^ Z.of_nat (length l2) + numeral_value l2.
Proof.
  unfold numeral_value at 1. rewrite fold_left_app, fold_value_shift.
  reflexivity.
Qed.

Lemma numeral_value_zeros (k : nat) : numeral_value (repeat "0"%char k) = 0.
Proof.
  induction k as [|k IH]; [reflexivity|].
  change (repeat "0"%char (S k)) with (["0"%char] ++ repeat "0"%char k).
  rewrite numeral_value_app, IH. reflexivity.
Qed.

Lemma uint_chars_digits (d : Init.Decimal.uint) :
  forallb is_digit (list_ascii_of_string (NilEmpty.string_of_uint d)) = true.
Proof. induction d; simpl; auto. Qed.

Lemma uint_chars_length (d : Init.Decimal.uint) :
  length (list_ascii_of_string (NilEmpty.string_of_uint d))
  = Init.Decimal.nb_digits d.
Proof. induction d; simpl; auto. Qed.

Lemma uint_chars_value (d : Init.Decimal.uint) (acc : Z) :
  fold_left (fun a c => 10 * a + digit_value c)
    (list_ascii_of_string (NilEmpty.string_of_uint d)) acc
  = uint_value d acc.
Proof.
  revert acc. induction d; intros acc; [reflexivity|..].
  all: cbn [NilEmpty.string_of_uint list_ascii_of_string fold_left uint_value].
  all: rewrite IHd; f_equal.
  all: match goal with
       | |- context [digit_value ?c] =>
           let v := eval vm_compute in (digit_value c) in
           change (digit_value c) with v
       end; lia.
Qed.

Lemma uint_value_of_lu (d d' : Init.Decimal.uint) :
  Z.of_N (DecimalPos.Unsigned.of_lu (Init.Decimal.revapp d d'))
  = uint_value d (Z.of_N (DecimalPos.Unsigned.of_lu d')).
Proof.
  revert d'. induction d; intros d'; [reflexivity|..].
  all: cbn [Init.Decimal.revapp uint_value]; rewrite IHd; f_equal.
  all: cbn [DecimalPos.Unsigned.of_lu]; lia.
Qed.

Lemma uint_value_to_uint (n : N) : uint_value (N.to_uint n) 0 = Z.of_N n.
Proof.
  rewrite <- (DecimalN.Unsigned.of_to n) at 2.
  unfold N.of_uint. rewrite DecimalPos.Unsigned.of_uint_alt.
  unfold Init.Decimal.rev. rewrite uint_value_of_lu. reflexivity.
Qed.

Lemma to_uint_nonnil (n : N) : N.to_uint n <> Init.Decimal.Nil.
Proof.
  destruct n as [|p]; [discriminate|]. apply DecimalPos.Unsigned.to_uint_nonnil.
Qed.

Lemma digits_chars (n : Z) :
  BigNumber.digits n
  = list_ascii_of_string (NilEmpty.string_of_uint (N.to_uint (Z.to_N n))).
Proof.
  unfold BigNumber.digits, NilZero.string_of_uint.
  pose proof (to_uint_nonnil (Z.to_N n)) as Hn.
  destruct (N.to_uint (Z.to_N n)); [congruence|reflexivity..].
Qed.

Lemma digits_are_digits (n : Z) : forallb is_digit (BigNumber.digits n) = true.
Proof. rewrite digits_chars. apply uint_chars_digits. Qed.

Lemma digits_value (n : Z) : 0 <= n -> numeral_value (BigNumber.digits n) = n.
Proof.
  intros Hn. rewrite digits_chars. unfold numeral_value.
  rewrite uint_chars_value, uint_value_to_uint. lia.
Qed.

Lemma digits_nonempty (n : Z) : (0 < length (BigNumber.digits n))%nat.
Proof.
  rewrite digits_chars, uint_chars_length.
  pose proof (to_uint_nonnil (Z.to_N n)) as Hn.
  destruct (N.to_uint (Z.to_N n)); simpl; [congruence|lia..].
Qed.

Lemma uint_value_lower (d : Init.Decimal.uint) (acc : Z) :
  0 <= acc -> acc * 10 ^ Z.of_nat (Init.Decimal.nb_digits d) <= uint_value d acc.
Proof.
  revert acc. induction d; intros acc Hacc; [simpl; lia|..].
  all: cbn [uint_value Init.Decimal.nb_digits].
  all: rewrite Nat2Z.inj_succ, Z.pow_succ_r by lia.
  all: assert (0 <= 10 ^ Z.of_nat (Init.Decimal.nb_digits d))
         by (apply Z.pow_nonneg; lia).
  all: (etransitivity; [|apply IHd; lia]); nia.
Qed.

Lemma to_uint_normal (n : N) : Init.Decimal.unorm (N.to_uint n) = N.to_uint n.
Proof.
  rewrite <- (DecimalN.Unsigned.to_of (N.to_uint n)).
  rewrite DecimalN.Unsigned.of_to. reflexivity.
Qed.

(** A number below [10^k] has at most [k] digits. *)
Lemma digits_length (n : Z) (k : nat) :
  (0 < k)%nat -> 0 <= n < 10 ^ Z.of_nat k -> (length (BigNumber.digits n) <= k)%nat.
Proof.
  intros Hk [Hn Hlt]. rewrite digits_chars, uint_chars_length.
  pose proof (uint_value_to_uint (Z.to_N n)) as Hval.
  pose proof (to_uint_normal (Z.to_N n)) as Hnorm.
  rewrite Z2N.id in Hval by exact Hn.
  destruct (N.to_uint (Z.to_N n)) as [|d|d|d|d|d|d|d|d|d|d] eqn:Hd;
    [simpl; lia| |..].
  { rewrite DecimalFacts.unorm_D0 in Hnorm.
    unfold Init.Decimal.unorm in Hnorm.
    destruct (Init.Decimal.nzhead d) eqn:Hz; try discriminate Hnorm.
    - injection Hnorm as <-. simpl. lia.
    - exfalso. exact (DecimalFacts.nzhead_nonzero _ _ Hz). }
  all: cbn [uint_value Init.Decimal.nb_digits] in *.
  all: match type of Hval with
       | uint_value ?u ?a = _ =>
           pose proof (uint_value_lower u a ltac:(lia)) as Hlow;
           assert (Hpos : 0 < 10 ^ Z.of_nat (Init.Decimal.nb_digits u))
             by (apply Z.pow_pos_nonneg; lia);
           assert (Hpow : 10 ^ Z.of_nat (Init.Decimal.nb_digits u)
                          < 10 ^ Z.of_nat k) by nia
       end.
  all: apply Z.pow_lt_mono_r_iff in Hpow; lia.
Qed.

(** ** Grouping and the decimal point *)

Lemma digit_not_comma (c : ascii) : is_digit c = true -> Ascii.eqb c "," = false.
Proof.
  intros H. destruct (Ascii.eqb_spec c ","%char) as [->|]; [discriminate|reflexivity].
Qed.

Lemma digit_not_point (c : ascii) : is_digit c = true -> Ascii.eqb c "." = false.
Proof.
  intros H. destruct (Ascii.eqb_spec c "."%char) as [->|]; [discriminate|reflexivity].
Qed.

Lemma digit_not_minus (c : ascii) : is_digit c = true -> Ascii.eqb c "-" = false.
Proof.
  intros H. destruct (Ascii.eqb_spec c "-"%char) as [->|]; [discriminate|reflexivity].
Qed.

Lemma group_rev_ungroup (ds : list ascii) (k : nat) :
  forallb is_digit ds = true ->
  List.filter (fun c => negb (Ascii.eqb c ",")) (BigNumber.group_rev ds k) = ds.
Proof.
  revert k. induction ds as [|c ds IH]; intros k H; [reflexivity|].
  simpl in H. apply andb_prop in H as [Hc Hds].
  destruct k as [|k]; simpl; rewrite (digit_not_comma c Hc); simpl;
    rewrite IH by exact Hds; reflexivity.
Qed.

Lemma filter_rev_list {A} (p : A -> bool) (l : list A) :
  List.filter p (rev l) = rev (List.filter p l).
Proof.
  induction l as [|x l IH]; [reflexivity|].
  simpl. rewrite List.filter_app, IH. simpl. destruct (p x); simpl.
  - reflexivity.
  - rewrite app_nil_r. reflexivity.
Qed.

Lemma forallb_rev {A} (p : A -> bool) (l : list A) :
  forallb p (rev l) = forallb p l.
Proof.
  induction l as [|x l IH]; [reflexivity|].
  simpl. rewrite forallb_app, IH. simpl. rewrite andb_true_r. apply andb_comm.
Qed.

Lemma group_ungroup (ds : list ascii) :
  forallb is_digit ds = true ->
  List.filter (fun c => negb (Ascii.eqb c ",")) (BigNumber.group ds) = ds.
Proof.
  intros H. unfold BigNumber.group.
  rewrite filter_rev_list, group_rev_ungroup by (rewrite forallb_rev; exact H).
  apply rev_involutive.
Qed.

Lemma group_rev_chars (ds : list ascii) (k : nat) :
  forallb is_digit ds = true ->
  forallb (fun c => is_digit c || Ascii.eqb c ",") (BigNumber.group_rev ds k) = true.
Proof.
  revert k. induction ds as [|c ds IH]; intros k H; [reflexivity|].
  simpl in H. apply andb_prop in H as [Hc Hds].
  destruct k as [|k]; simpl; rewrite Hc, IH by exact Hds; reflexivity.
Qed.

Lemma group_chars (ds : list ascii) :
  forallb is_digit ds = true ->
  forallb (fun c => is_digit c || Ascii.eqb c ",") (BigNumber.group ds) = true.
Proof.
  intros H. unfold BigNumber.group. rewrite forallb_rev.
  apply group_rev_chars. rewrite forallb_rev. exact H.
Qed.

Lemma grouped_not_point (c : ascii) :
  is_digit c || Ascii.eqb c "," = true -> Ascii.eqb c "." = false.
Proof.
  intros H. destruct (Ascii.eqb_spec c "."%char) as [->|]; [discriminate|reflexivity].
Qed.

Lemma grouped_not_minus (c : ascii) :
  is_digit c || Ascii.eqb c "," = true -> Ascii.eqb c "-" = false.
Proof.
  intros H. destruct (Ascii.eqb_spec c "-"%char) as [->|]; [discriminate|reflexivity].
Qed.

Lemma before_point_app (l r : list ascii) :
  forallb (fun c => is_digit c || Ascii.eqb c ",") l = true ->
  before_point (l ++ "."%char :: r) = l.
Proof.
  induction l as [|c l IH]; intros H; [reflexivity|].
  simpl in H. apply andb_prop in H as [Hc Hl].
  simpl. rewrite (grouped_not_point c Hc), IH by exact Hl. reflexivity.
Qed.

Lemma after_point_app (l r : list ascii) :
  forallb (fun c => is_digit c || Ascii.eqb c ",") l = true ->
  after_point (l ++ "."%char :: r) = r.
Proof.
  induction l as [|c l IH]; intros H; [reflexivity|].
  simpl in H. apply andb_prop in H as [Hc Hl].
  simpl. rewrite (grouped_not_point c Hc), IH by exact Hl. reflexivity.
Qed.

Lemma pad_left_length (k : nat) (ds : list ascii) :
  (length ds <= k)%nat -> length (BigNumber.pad_left k ds) = k.
Proof.
  intros H. unfold BigNumber.pad_left. rewrite length_app, repeat_length. lia.
Qed.

Lemma pad_left_digits (k : nat) (ds : list ascii) :
  forallb is_digit ds = true -> forallb is_digit (BigNumber.pad_left k ds) = true.
Proof.
  intros H. unfold BigNumber.pad_left. rewrite forallb_app, H, andb_true_r.
  induction (k - length ds)%nat as [|j IH]; [reflexivity|exact IH].
Qed.

Lemma pad_left_value (k : nat) (ds : list ascii) :
  numeral_value (BigNumber.pad_left k ds) = numeral_value ds.
Proof.
  unfold BigNumber.pad_left. rewrite numeral_value_app, numeral_value_zeros. lia.
Qed.

(** What is printed with [k] decimals reads back as the same mantissa with
    [k] decimals: the printed string denotes [m / 10^k]. *)
Lemma read_print_fixed (k : nat) (m : Z) :
  (0 < k)%nat -> read_fixed (BigNumber.print_fixed k m) = Some (m, k).
Proof.
  intros Hk. unfold BigNumber.print_fixed.
  set (a := Z.abs m).
  assert (Hp : 0 < BigNumber.pow10 k)
    by (unfold BigNumber.pow10; apply Z.pow_pos_nonneg; lia).
  pose proof (Z.div_mod a (BigNumber.pow10 k) ltac:(lia)) as Hdm.
  pose proof (Z.mod_pos_bound a (BigNumber.pow10 k) Hp) as Hr.
  assert (Hq : 0 <= a / BigNumber.pow10 k) by (apply Z.div_pos; lia).
  set (q := a / BigNumber.pow10 k) in *. set (r := a mod BigNumber.pow10 k) in *.
  set (ip := BigNumber.group (BigNumber.digits q)).
  set (fp := BigNumber.pad_left k (BigNumber.digits r)).
  assert (Hip : forallb (fun c => is_digit c || Ascii.eqb c ",") ip = true)
    by (apply group_chars, digits_are_digits).
  assert (Hfl : length fp = k).
  { apply pad_left_length, digits_length; [exact Hk|exact Hr]. }
  assert (Hfd : forallb is_digit fp = true)
    by (apply pad_left_digits, digits_are_digits).
  assert (Hbody : read_unsigned (ip ++ "."%char :: fp) = Some (a, k)).
  { unfold read_unsigned.
    rewrite before_point_app, after_point_app by exact Hip.
    unfold ip. rewrite group_ungroup by apply digits_are_digits.
    rewrite forallb_app, digits_are_digits, Hfd. simpl.
    pose proof (digits_nonempty q) as Hne.
    destruct (length (BigNumber.digits q)) eqn:Hlen; [lia|]. simpl.
    rewrite numeral_value_app, Hfl, digits_value by exact Hq.
    unfold fp. rewrite pad_left_value, digits_value by lia.
    do 2 f_equal. fold (BigNumber.pow10 k). lia. }
  destruct k as [|k']; [lia|]. fold ip fp.
  unfold read_fixed. rewrite list_ascii_of_string_of_list_ascii.
  destruct (m <? 0) eqn:Hneg.
  - simpl app. change (Ascii.eqb "-" "-") with true. cbv iota.
    rewrite Hbody. apply Z.ltb_lt in Hneg. do 2 f_equal. lia.
  - simpl app. apply Z.ltb_ge in Hneg.
    destruct ip as [|c ip'] eqn:Hipe.
    + pose proof (digits_nonempty q) as Hne.
      assert (Hl : length (List.filter (fun c => negb (Ascii.eqb c ",")) ip)
                   = length (BigNumber.digits q))
        by (unfold ip; rewrite group_ungroup by apply digits_are_digits; reflexivity).
      rewrite Hipe in Hl. simpl in Hl. lia.
    + simpl in Hip. apply andb_prop in Hip as [Hc Hrest].
      change ((c :: ip') ++ "."%char :: fp) with (c :: (ip' ++ "."%char :: fp)).
      cbv iota beta. rewrite (grouped_not_minus c Hc).
      change (c :: (ip' ++ "."%char :: fp)) with ((c :: ip') ++ "."%char :: fp).
      rewrite Hbody. do 2 f_equal. lia.
Qed.

(** ** The phases of a session *)

Lemma world_step (s : Sys) (ev : Event) : world (step s ev) = world s.
Proof.
  destruct ev as [|bn c|pid|act|]; simpl.
  - unfold startup_settles, attach_registry, attach_lookup, attach_catch.
    repeat (match goal with
            | |- context [match ?x with _ => _ end] => destruct x; simpl
            end); reflexivity.
  - unfold onNewBlockNumber.
    destruct (subscribed s); [|reflexivity].
    destruct (instance (comp s)); reflexivity.
  - unfold pass_settles, pass_globals, pass_balances, pass_rejected.
    repeat (match goal with
            | |- context [match ?x with _ => _ end] => destruct x; simpl
            end); reflexivity.
  - destruct (renderInterface (comp s)); reflexivity.
  - destruct (renderInterface (comp s)) as [ui|]; [|reflexivity].
    destruct (modals ui); reflexivity.
Qed.

Lemma world_run (evs : list Event) (s : Sys) : world (run s evs) = world s.
Proof.
  unfold run. revert s. induction evs as [|ev evs IH]; intros s; [reflexivity|].
  simpl. rewrite IH. apply world_step.
Qed.

Lemma world_session (w : StartupWorld) (evs : list Event) :
  world (session w evs) = w.
Proof. unfold session. rewrite world_run. reflexivity. Qed.

Lemma phase_mount (w : StartupWorld) : Phase (componentDidMount w).
Proof. apply phase_registry; reflexivity. Qed.

Lemma idle_step (s : Sys) (ev : Event) :
  subscribed s = false -> comp s = initial -> passes s = ∅ ->
  match ev with StartupSettles => True | _ => step s ev = s end.
Proof.
  intros Hsub Hcomp Hpass. destruct ev as [|bn c|pid|act|]; simpl; [exact I|..].
  - rewrite Hsub. reflexivity.
  - unfold pass_settles. rewrite Hpass, lookup_empty. reflexivity.
  - rewrite Hcomp. reflexivity.
  - rewrite Hcomp. reflexivity.
Qed.

Lemma phase_step_registry (s : Sys) :
  startup s = Some AwaitRegistry -> subscribed s = false ->
  comp s = initial -> passes s = ∅ ->
  trace s = [Request RegistryAddress] -> Phase (startup_settles s).
Proof.
  intros Hst Hsub Hcomp Hpass Htr. unfold startup_settles. rewrite Hst.
  destruct (registryAddress (world s)) as [registry|e] eqn:Hreg.
  - unfold attach_registry.
    destruct (newContract_throws (world s) registryAbi registry) as [e|] eqn:Hthrow.
    + apply (phase_failed _
               [ConsoleLog ("the registry was found at " ++ registry)%string;
                Construct registryAbi registry] e); simpl; try assumption;
        try reflexivity.
      rewrite Htr. reflexivity.
    + apply (phase_lookup _ registry); simpl; try assumption; try reflexivity.
      rewrite Htr. reflexivity.
  - apply (phase_failed _ [] e); simpl; try assumption; try reflexivity.
    rewrite Htr. reflexivity.
Qed.

Lemma all3_fulfilled {A B C} (a : Settled A) (b : Settled B) (c : Settled C)
  (r : A * B * C) :
  Promise.all3 a b c = Fulfilled r <->
  a = Fulfilled r.1.1 /\ b = Fulfilled r.1.2 /\ c = Fulfilled r.2.
Proof.
  destruct r as [[x y] z]. simpl.
  destruct a, b, c; simpl; split; intros H;
    try discriminate; try (destruct H as (? & ? & ?); discriminate).
  - injection H as -> -> ->. auto.
  - destruct H as (Ha & Hb & Hc). congruence.
Qed.

Lemma phase_step_lookup (s : Sys) (registry : Address) :
  startup s = Some AwaitLookup -> subscribed s = false ->
  comp s = initial -> passes s = ∅ ->
  registryAddress (world s) = Fulfilled registry ->
  newContract_throws (world s) registryAbi registry = None ->
  trace s = lookup_trace registry -> Phase (startup_settles s).
Proof.
  intros Hst Hsub Hcomp Hpass Hreg Hthrow Htr. unfold startup_settles. rewrite Hst.
  destruct (Promise.all3 (getAddress (world s)) (listAccounts (world s))
              (accountsInfo (world s))) as [[[addr addresses] infos]|e] eqn:Hall.
  - apply all3_fulfilled in Hall as (Haddr & Hlist & Hinfos). simpl in *.
    unfold attach_lookup.
    destruct (newContract_throws (world s) gavcoinAbi addr) as [e|] eqn:Hthrow2.
    + apply (phase_failed _
               (tl (lookup_trace registry) ++
                [ConsoleLog ("gavcoin was found at " ++ addr)%string;
                 Construct gavcoinAbi addr]) e); simpl; try assumption;
        try reflexivity.
      rewrite Htr. reflexivity.
    + destruct (enumerate infos addresses) as [accs|e] eqn:Henum.
      * apply (phase_running _ registry addr accs []); simpl;
          try assumption; try reflexivity.
        -- repeat split; try assumption. exists addresses, infos. auto.
        -- rewrite Htr, Hcomp. reflexivity.
        -- intros pid queried c. rewrite Hpass, lookup_empty. discriminate.
        -- intros pid. rewrite Hpass, lookup_empty. intros [? ?]. discriminate.
      * apply (phase_failed _
                 (tl (lookup_trace registry) ++
                  [ConsoleLog ("gavcoin was found at " ++ addr)%string;
                   Construct gavcoinAbi addr]) e); simpl; try assumption;
          try reflexivity.
        rewrite Htr. reflexivity.
  - apply (phase_failed _ (tl (lookup_trace registry)) e); simpl;
      try assumption; try reflexivity.
    rewrite Htr. reflexivity.
Qed.

Lemma balanceRequests_not_startup (accs : list Account.t) :
  forallb (fun e => negb (is_startup_effect e)) (balanceRequests accs) = true.
Proof.
  unfold balanceRequests. rewrite forallb_app.
  apply andb_true_intro. split; induction accs as [|a accs IH]; simpl; auto.
Qed.

(** A step of a running session that keeps the start-up's results keeps the
    session running. *)
Lemma running_extend (s s' : Sys) (es : list Effect)
  (registry addr : Address) (accs : list Account.t) (rest : list Effect) :
  StartupSuccess (world s) registry addr accs ->
  trace s =
    (startup_trace registry addr
       (publish addr (newContract gavcoinAbi addr) accs initial)
     ++ Subscribe "eth.blockNumber" :: rest) ->
  forallb (fun e => negb (is_startup_effect e)) rest = true ->
  world s' = world s -> startup s' = None -> subscribed s' = true ->
  trace s' = (trace s ++ es) ->
  forallb (fun e => negb (is_startup_effect e)) es = true ->
  loading (comp s') = false ->
  address (comp s') = Some addr ->
  instance (comp s') = Some (newContract gavcoinAbi addr) ->
  map Account.address (accounts (comp s')) = map Account.address accs ->
  (forall pid queried c, passes s' !! pid = Some (AwaitBalances queried c) ->
     queried = map Account.address (accounts (comp s'))) ->
  (forall pid, is_Some (passes s' !! pid) -> (pid < next_pass s')%nat) ->
  Phase s'.
Proof.
  intros Hok Htr Hrest Hw Hst Hsub Htr' Hes Hload Haddr Hinst Haccs Hq Hfresh.
  apply (phase_running s' registry addr accs (rest ++ es)); try assumption.
  - rewrite Hw. exact Hok.
  - rewrite Htr', Htr, <- app_assoc. reflexivity.
  - rewrite forallb_app, Hrest, Hes. reflexivity.
Qed.

Lemma phase_step_running (s : Sys) (ev : Event)
  (registry addr : Address) (accs : list Account.t) (rest : list Effect) :
  startup s = None -> subscribed s = true ->
  StartupSuccess (world s) registry addr accs ->
  trace s =
    (startup_trace registry addr
       (publish addr (newContract gavcoinAbi addr) accs initial)
     ++ Subscribe "eth.blockNumber" :: rest) ->
  forallb (fun e => negb (is_startup_effect e)) rest = true ->
  loading (comp s) = false ->
  address (comp s) = Some addr ->
  instance (comp s) = Some (newContract gavcoinAbi addr) ->
  map Account.address (accounts (comp s)) = map Account.address accs ->
  (forall pid queried c, passes s !! pid = Some (AwaitBalances queried c) ->
     queried = map Account.address (accounts (comp s))) ->
  (forall pid, is_Some (passes s !! pid) -> (pid < next_pass s)%nat) ->
  Phase (step s ev).
Proof.
  intros Hst Hsub Hok Htr Hrest Hload Haddr Hinst Haccs Hq Hfresh.
  pose proof (running_extend s) as Ext.
  specialize (fun s' es => Ext s' es registry addr accs rest Hok Htr Hrest).
  destruct ev as [|bn c|pid|act|]; simpl.
  - (* StartupSettles *)
    unfold startup_settles. rewrite Hst.
    apply (Ext s []); auto. rewrite app_nil_r. reflexivity.
  - (* Block *)
    rewrite Hsub. unfold onNewBlockNumber. rewrite Hinst.
    apply (Ext _ [Request TotalSupply; Request Remaining; Request Price]);
      simpl; auto.
    + intros pid queried c'. destruct (decide (pid = next_pass s)) as [->|Hne].
      * rewrite lookup_insert_eq. discriminate.
      * rewrite lookup_insert_ne by auto. apply Hq.
    + intros pid. destruct (decide (pid = next_pass s)) as [->|Hne]; [lia|].
      rewrite lookup_insert_ne by auto. intros H. apply Hfresh in H. lia.
  - (* PassSettles *)
    unfold pass_settles.
    destruct (passes s !! pid) as [[bn inst c|queried c]|] eqn:Hpid.
    + destruct (Promise.all3 _ _ _) as [[[ts rem] pr]|e].
      * unfold pass_globals.
        apply (Ext _ (SetState (setGlobals bn ts rem pr (comp s))
                      :: balanceRequests (accounts (comp s)))); simpl; auto.
        -- rewrite <- app_assoc. reflexivity.
        -- apply balanceRequests_not_startup.
        -- intros pid' queried c'.
           destruct (decide (pid' = pid)) as [->|Hne].
           ++ rewrite lookup_insert_eq. intros [= <- <-]. reflexivity.
           ++ rewrite lookup_insert_ne by auto. apply Hq.
        -- intros pid'. destruct (decide (pid' = pid)) as [->|Hne].
           ++ intros _. apply Hfresh. rewrite Hpid. eauto.
           ++ rewrite lookup_insert_ne by auto. apply Hfresh.
      * unfold pass_rejected. apply (Ext _ [Unhandled e]); simpl; auto.
        -- intros pid' queried c'. intros H.
           apply lookup_delete_Some in H as [_ H]. eapply Hq; eauto.
        -- intros pid' [p H]. apply lookup_delete_Some in H as [_ H].
           apply Hfresh. eauto.
    + destruct (Promise.all2 _ _) as [[gavs eths]|e].
      * unfold pass_balances.
        pose proof (mapAccounts_addresses (accounts (comp s)) eths gavs) as Hmap.
        destruct (mapAccounts (accounts (comp s)) eths gavs) as [accs' thrown].
        simpl in Hmap.
        destruct thrown as [e|].
        -- apply (Ext _ [Unhandled e]); simpl; auto.
           ++ congruence.
           ++ intros pid' queried' c' H.
              apply lookup_delete_Some in H as [_ H]. rewrite Hmap. eapply Hq; eauto.
           ++ intros pid' [p H]. apply lookup_delete_Some in H as [_ H].
              apply Hfresh. eauto.
        -- apply (Ext _ [SetState (setBalances (total eths) (total gavs) accs'
                                     (comp s))]); simpl; auto.
           ++ congruence.
           ++ intros pid' queried' c' H.
              apply lookup_delete_Some in H as [_ H]. rewrite Hmap. eapply Hq; eauto.
           ++ intros pid' [p H]. apply lookup_delete_Some in H as [_ H].
              apply Hfresh. eauto.
      * unfold pass_rejected. apply (Ext _ [Unhandled e]); simpl; auto.
        -- intros pid' queried' c'. intros H.
           apply lookup_delete_Some in H as [_ H]. eapply Hq; eauto.
        -- intros pid' [p H]. apply lookup_delete_Some in H as [_ H].
           apply Hfresh. eauto.
    + apply (Ext s []); auto. rewrite app_nil_r. reflexivity.
  - (* Click *)
    unfold renderInterface. rewrite Hload.
    apply (Ext _ [SetState (onAction act (comp s))]); simpl; auto.
  - (* CloseModal *)
    unfold renderInterface. rewrite Hload. simpl.
    destruct (renderModals (comp s)).
    + apply (Ext _ [SetState (onActionClose (comp s))]); simpl; auto.
    + apply (Ext s []); auto. rewrite app_nil_r. reflexivity.
Qed.

Lemma phase_step (s : Sys) (ev : Event) : Phase s -> Phase (step s ev).
Proof.
  intros [Hst Hsub Hcomp Hpass Htr
         |registry Hst Hsub Hcomp Hpass Hreg Hthrow Htr
         |tl e Hst Hsub Hcomp Hpass Htr Hq
         |registry addr accs rest Hst Hsub Hok Htr Hrest Hload Haddr Hinst Haccs Hq Hfresh].
  - pose proof (idle_step s ev Hsub Hcomp Hpass) as Hidle.
    destruct ev; try (rewrite Hidle; apply phase_registry; assumption).
    apply phase_step_registry; assumption.
  - pose proof (idle_step s ev Hsub Hcomp Hpass) as Hidle.
    destruct ev; try (rewrite Hidle; eapply phase_lookup; eassumption).
    eapply phase_step_lookup; eassumption.
  - pose proof (idle_step s ev Hsub Hcomp Hpass) as Hidle.
    destruct ev; try (rewrite Hidle; eapply phase_failed; eassumption).
    simpl. unfold startup_settles. rewrite Hst. eapply phase_failed; eassumption.
  - eapply phase_step_running; eassumption.
Qed.

Lemma phase_run (evs : list Event) (s : Sys) : Phase s -> Phase (run s evs).
Proof.
  unfold run. revert s. induction evs as [|ev evs IH]; intros s H; [exact H|].
  simpl. apply IH, phase_step, H.
Qed.

Lemma phase_session (w : StartupWorld) (evs : list Event) : Phase (session w evs).
Proof. apply phase_run, phase_mount. Qed.

(** ** Start-up *)

Lemma forallb_impl {A} (p q : A -> bool) (l : list A) :
  (forall x, p x = true -> q x = true) ->
  forallb p l = true -> forallb q l = true.
Proof.
  intros Hpq. induction l as [|x l IH]; simpl; [auto|].
  intros H. apply andb_prop in H as [Hx Hl].
  rewrite (Hpq x Hx), (IH Hl). reflexivity.
Qed.

Lemma failure_excludes_success (w : StartupWorld) (registry addr : Address)
  (accs : list Account.t) :
  StartupFailure w -> StartupSuccess w registry addr accs -> False.
Proof.
  intros Hfail (Hreg & Hthrow & Haddr & Hthrow2 & addresses & infos & Hl & Hi & He).
  destruct Hfail; congruence.
Qed.

Lemma startup_pass_settles (pid : nat) (s : Sys) :
  startup (pass_settles pid s) = startup s.
Proof.
  unfold pass_settles, pass_globals, pass_balances, pass_rejected.
  destruct (passes s !! pid) as [[bn inst c|queried c]|]; [| |reflexivity].
  - destruct (Promise.all3 _ _ _) as [[[ts rem] pr]|e]; reflexivity.
  - destruct (Promise.all2 _ _) as [[gavs eths]|e]; [|reflexivity].
    destruct (mapAccounts _ _ _) as [accs [e|]]; reflexivity.
Qed.

Lemma startup_steps_left_step (s : Sys) (ev : Event) :
  (startup_steps_left (step s ev) <=
   startup_steps_left s - match ev with StartupSettles => 1 | _ => 0 end)%nat.
Proof.
  unfold startup_steps_left.
  destruct ev as [|bn c|pid|act|]; simpl.
  - unfold startup_settles.
    destruct (startup s) as [[]|] eqn:Hst; [| |rewrite Hst; lia].
    + destruct (registryAddress (world s)) as [registry|e]; [|simpl; lia].
      unfold attach_registry.
      destruct (newContract_throws _ _ _); simpl; lia.
    + destruct (Promise.all3 _ _ _) as [[[addr addresses] infos]|e]; [|simpl; lia].
      unfold attach_lookup.
      destruct (newContract_throws _ _ _); [simpl; lia|].
      destruct (enumerate _ _); simpl; lia.
  - unfold onNewBlockNumber. destruct (subscribed s); [|lia].
    destruct (instance (comp s)); simpl; lia.
  - rewrite startup_pass_settles. lia.
  - destruct (renderInterface (comp s)); simpl; lia.
  - destruct (renderInterface (comp s)) as [ui|]; [|lia].
    destruct (modals ui); simpl; lia.
Qed.

Lemma startup_steps_left_run (evs : list Event) (s : Sys) :
  (startup_steps_left (run s evs) <= startup_steps_left s - settles evs)%nat.
Proof.
  unfold run. revert s. induction evs as [|ev evs IH]; intros s; simpl; [lia|].
  specialize (IH (step s ev)). pose proof (startup_steps_left_step s ev) as Hs.
  destruct ev; lia.
Qed.

Lemma startup_settled (w : StartupWorld) (evs : list Event) :
  (2 <= settles evs)%nat -> startup (session w evs) = None.
Proof.
  intros H. pose proof (startup_steps_left_run evs (componentDidMount w)) as Hr.
  fold (session w evs) in Hr.
  change (startup_steps_left (componentDidMount w)) with 2%nat in Hr.
  unfold startup_steps_left in Hr.
  destruct (startup (session w evs)) as [[]|]; [lia|lia|reflexivity].
Qed.

(** C5.  When a step of the start-up fails (the registry address, either
    contract binding, the contract lookup, the account list, the account infos
    or the naming of an account), then whatever happens afterwards the state
    stays the initial one with [loading = true], nothing is rendered but the
    loading indicator, no state was ever published, the block handler was
    never subscribed and no pass runs; and once the chain has settled the
    error has been logged. *)
Theorem startup_failure_is_final (w : StartupWorld) (evs : list Event) :
  StartupFailure w ->
  let s := session w evs in
  comp s = initial /\
  loading (comp s) = true /\
  render (comp s) = {| view_loading := Some Loading; view_interface := None |} /\
  forallb (fun e => negb (is_commit e) && negb (is_subscribe e)) (trace s) = true /\
  subscribed s = false /\
  passes s = ∅ /\
  ((2 <= settles evs)%nat ->
   startup s = None /\ exists e, last (trace s) = Some (ConsoleError e)).
Proof.
  intros Hfail s.
  pose proof (phase_session w evs) as Hphase. fold s in Hphase.
  pose proof (world_session w evs) as Hw. fold s in Hw.
  assert (Hquiet : forall e, quiet e = true ->
            negb (is_commit e) && negb (is_subscribe e) = true)
    by (intros [[]| | | | | | |]; simpl; congruence).
  destruct Hphase as [Hst Hsub Hcomp Hpass Htr
         |registry Hst Hsub Hcomp Hpass Hreg Hthrow Htr
         |tl e Hst Hsub Hcomp Hpass Htr Hq
         |registry addr accs rest Hst Hsub Hok Htr Hrest Hload Haddr Hinst Haccs Hq Hfresh].
  - rewrite Hcomp, Htr. do 6 (split; [auto|]).
    intros H2. apply (startup_settled w) in H2. fold s in H2. congruence.
  - rewrite Hcomp, Htr. do 6 (split; [auto|]).
    intros H2. apply (startup_settled w) in H2. fold s in H2. congruence.
  - rewrite Hcomp, Htr. do 3 (split; [auto|]). split; [|auto].
    + simpl. rewrite forallb_app. simpl.
      rewrite (forallb_impl _ _ _ Hquiet Hq). reflexivity.
    + do 2 (split; [auto|]). intros _. split; [exact Hst|].
      exists e. change (Request RegistryAddress :: tl ++ [ConsoleError e])
        with ((Request RegistryAddress :: tl) ++ [ConsoleError e]).
      apply last_snoc.
  - exfalso. rewrite Hw in Hok. exact (failure_excludes_success _ _ _ _ Hfail Hok).
Qed.

Lemma startup_failure_is_final_witness :
  let s := session Sample.offline
             [StartupSettles; Block 7 Sample.reads; StartupSettles;
              Click (JStr "BuyIn"); PassSettles 0] in
  loading (comp s) = true /\ subscribed s = false /\
  exists e, last (trace s) = Some (ConsoleError e).
Proof.
  assert (Hfail : StartupFailure Sample.offline)
    by (eapply registry_unreachable; reflexivity).
  pose proof (startup_failure_is_final Sample.offline
                [StartupSettles; Block 7 Sample.reads; StartupSettles;
                 Click (JStr "BuyIn"); PassSettles 0] Hfail) as H.
  simpl in H. destruct H as (_ & Hl & _ & _ & Hs & _ & Hlog).
  split; [exact Hl|]. split; [exact Hs|].
  apply Hlog. simpl. lia.
Defined.

(** C9.  In every session the start-up sequence is begun once (a single
    registry request opens the trace) and runs in order.  Either the handler
    is not subscribed, and then no pass exists, no pass read was ever issued
    and the state is still the initial, loading one; or the trace starts with
    the registry request, the registry binding, the three lookups, the
    contract binding and the publication of the initial state with
    [loading = false], in this order, followed by the one subscription, and
    everything a pass does comes after it. *)
Theorem startup_order (w : StartupWorld) (evs : list Event) :
  let s := session w evs in
  (exists tl, trace s = Request RegistryAddress :: tl /\
     forallb (fun e => negb (is_registry_request e)) tl = true) /\
  ((subscribed s = false /\ passes s = ∅ /\ comp s = initial /\
    forallb (fun e => negb (is_subscribe e) && negb (is_pass_request e))
      (trace s) = true) \/
   (exists registry addr accs rest,
      let st0 := publish addr (newContract gavcoinAbi addr) accs initial in
      subscribed s = true /\
      StartupSuccess w registry addr accs /\
      trace s = startup_trace registry addr st0 ++
                Subscribe "eth.blockNumber" :: rest /\
      loading st0 = false /\
      accounts st0 = accs /\
      forallb (fun e => negb (is_subscribe e) && negb (is_pass_request e))
        (startup_trace registry addr st0) = true /\
      forallb (fun e => negb (is_startup_effect e)) rest = true /\
      loading (comp s) = false /\
      instance (comp s) = Some (newContract gavcoinAbi addr))).
Proof.
  intros s.
  pose proof (phase_session w evs) as Hphase. fold s in Hphase.
  pose proof (world_session w evs) as Hw. fold s in Hw.
  assert (Hquiet1 : forall e, quiet e = true -> negb (is_registry_request e) = true)
    by (intros [[]| | | | | | |]; simpl; congruence).
  assert (Hquiet2 : forall e, quiet e = true ->
            negb (is_subscribe e) && negb (is_pass_request e) = true)
    by (intros [[]| | | | | | |]; simpl; congruence).
  assert (Hrun : forall e, negb (is_startup_effect e) = true ->
            negb (is_registry_request e) = true)
    by (intros [[]| | | | | | |]; simpl; congruence).
  destruct Hphase as [Hst Hsub Hcomp Hpass Htr
         |registry Hst Hsub Hcomp Hpass Hreg Hthrow Htr
         |tl e Hst Hsub Hcomp Hpass Htr Hq
         |registry addr accs rest Hst Hsub Hok Htr Hrest Hload Haddr Hinst Haccs Hq Hfresh].
  - split; [exists []; rewrite Htr; auto|].
    left. rewrite Htr. auto.
  - split; [eexists; rewrite Htr; split; reflexivity|].
    left. rewrite Htr. auto.
  - split.
    + exists (tl ++ [ConsoleError e]). split; [exact Htr|].
      rewrite forallb_app, (forallb_impl _ _ _ Hquiet1 Hq). reflexivity.
    + left. rewrite Htr. do 3 (split; [auto|]).
      simpl. rewrite forallb_app, (forallb_impl _ _ _ Hquiet2 Hq). reflexivity.
  - split.
    + eexists. rewrite Htr. split; [reflexivity|].
      simpl. apply (forallb_impl _ _ _ Hrun Hrest).
    + right. exists registry, addr, accs, rest. simpl.
      rewrite <- Hw. split; [exact Hsub|]. split; [exact Hok|].
      repeat split; assumption.
Qed.

(** ** The two commits of a pass *)

Lemma pass_first_commit (s : Sys) (pid : nat) (bn : Z) (inst : Instance)
  (c : ChainReads) (ts rem pr : Z) :
  passes s !! pid = Some (AwaitGlobals bn inst c) ->
  totalSupply_call c = Fulfilled ts -> remaining_call c = Fulfilled rem ->
  price_call c = Fulfilled pr ->
  step s (PassSettles pid) = pass_globals pid bn inst c (ts, rem, pr) s.
Proof.
  intros Hpid Hts Hrem Hpr. simpl. unfold pass_settles.
  rewrite Hpid, Hts, Hrem, Hpr. reflexivity.
Qed.

Lemma pass_second_commit (w : StartupWorld) (evs : list Event) (pid : nat)
  (queried : list Address) (c : ChainReads) (gavs eths : list Z) :
  let s := session w evs in
  passes s !! pid = Some (AwaitBalances queried c) ->
  Promise.all (map (balanceOf_call c) queried) = Fulfilled gavs ->
  Promise.all (map (getBalance_call c) queried) = Fulfilled eths ->
  queried = map Account.address (accounts (comp s)) /\
  length gavs = length (accounts (comp s)) /\
  length eths = length (accounts (comp s)) /\
  step s (PassSettles pid) =
    setState (setBalances (total eths) (total gavs)
                (refreshed (accounts (comp s)) eths gavs) (comp s))
      (with_passes (delete pid (passes s)) s).
Proof.
  intros s Hpid Hgav Heth.
  pose proof (phase_session w evs) as Hphase. fold s in Hphase.
  assert (Hq : queried = map Account.address (accounts (comp s))).
  { destruct Hphase as [? ? ? Hpass ?|? ? ? ? Hpass ? ? ?|? ? ? ? ? Hpass ? ?
                       |? ? ? ? ? ? ? ? ? ? ? ? ? Hq ?];
      try (rewrite Hpass, lookup_empty in Hpid; discriminate).
    eapply Hq; eauto. }
  assert (Hlg : length gavs = length (accounts (comp s))).
  { apply all_fulfilled, Forall2_length in Hgav.
    rewrite <- Hgav, Hq, length_map. reflexivity. }
  assert (Hle : length eths = length (accounts (comp s))).
  { apply all_fulfilled, Forall2_length in Heth.
    rewrite <- Heth, Hq, length_map. reflexivity. }
  do 3 (split; [assumption|]).
  simpl. unfold pass_settles. rewrite Hpid. simpl. rewrite Hgav, Heth. simpl.
  unfold pass_balances. rewrite mapAccounts_aligned by assumption. reflexivity.
Qed.

(** After the first reaction of the sample pass the published state shows the
    pass's global counters, but not its balances. *)
Lemma globals_visible_before_balances :
  let s := session Sample.world
             (Sample.started ++ [Block 7 Sample.reads; PassSettles 0]) in
  trace s !! 13%nat = Some (SetState (comp s)) /\
  shows_globals 7 Sample.reads (comp s) /\
  ~ shows_balances Sample.reads (comp s).
Proof.
  split; [vm_compute; reflexivity|].
  split; [vm_compute; auto|].
  intros (gavs & eths & Hg & He & Hgb & Heb & Hacc).
  vm_compute in Hg. injection Hg as <-.
  vm_compute in Hgb. discriminate.
Qed.

(** C1, amended.  A pass commits twice.  When its three global reads have
    resolved, one [setState] replaces [blockNumber], [totalSupply],
    [remaining] and [price] together and leaves the balances as they were;
    the balance reads are issued after it.  When all balance reads have
    resolved, a second [setState] replaces [ethBalance], [gavBalance] and the
    accounts together and leaves the global counters as they were. *)
Theorem pass_commits_twice (w : StartupWorld) (evs : list Event) (pid : nat) :
  let s := session w evs in
  let s' := step s (PassSettles pid) in
  (forall bn inst c ts rem pr,
     passes s !! pid = Some (AwaitGlobals bn inst c) ->
     totalSupply_call c = Fulfilled ts ->
     remaining_call c = Fulfilled rem ->
     price_call c = Fulfilled pr ->
     trace s' = trace s ++ SetState (comp s') :: balanceRequests (accounts (comp s)) /\
     blockNumber (comp s') = Some bn /\
     totalSupply (comp s') = Some ts /\
     remaining (comp s') = Some rem /\
     price (comp s') = Some pr /\
     ethBalance (comp s') = ethBalance (comp s) /\
     gavBalance (comp s') = gavBalance (comp s) /\
     accounts (comp s') = accounts (comp s) /\
     passes s' !! pid =
       Some (AwaitBalances (map Account.address (accounts (comp s))) c)) /\
  (forall queried c gavs eths,
     passes s !! pid = Some (AwaitBalances queried c) ->
     Promise.all (map (balanceOf_call c) queried) = Fulfilled gavs ->
     Promise.all (map (getBalance_call c) queried) = Fulfilled eths ->
     trace s' = trace s ++ [SetState (comp s')] /\
     ethBalance (comp s') = total eths /\
     gavBalance (comp s') = total gavs /\
     accounts (comp s') = refreshed (accounts (comp s)) eths gavs /\
     blockNumber (comp s') = blockNumber (comp s) /\
     totalSupply (comp s') = totalSupply (comp s) /\
     remaining (comp s') = remaining (comp s) /\
     price (comp s') = price (comp s) /\
     passes s' !! pid = None).
Proof.
  intros s s'. split.
  - intros bn inst c ts rem pr Hpid Hts Hrem Hpr. subst s'.
    rewrite (pass_first_commit s pid bn inst c ts rem pr Hpid Hts Hrem Hpr).
    unfold pass_globals. simpl. rewrite <- app_assoc, lookup_insert_eq.
    repeat split.
  - intros queried c gavs eths Hpid Hgav Heth.
    destruct (pass_second_commit w evs pid queried c gavs eths Hpid Hgav Heth)
      as (_ & _ & _ & Hstep).
    fold s in Hstep. subst s'. rewrite Hstep. simpl.
    rewrite lookup_delete_eq. repeat split.
Qed.

Lemma pass_commits_twice_witness :
  let s := session Sample.world (Sample.started ++ [Block 7 Sample.reads]) in
  let s' := step s (PassSettles 0) in
  let s'' := step s' (PassSettles 0) in
  (totalSupply (comp s') = Some 1000 /\ gavBalance (comp s') = gavBalance (comp s)) /\
  (gavBalance (comp s'') = total [1500000; 0] /\
   totalSupply (comp s'') = totalSupply (comp s')).
Proof.
  split.
  - destruct (proj1 (pass_commits_twice Sample.world
                       (Sample.started ++ [Block 7 Sample.reads]) 0%nat)
                7 (newContract gavcoinAbi "0xgav") Sample.reads 1000 400 3
                eq_refl eq_refl eq_refl eq_refl)
      as (_ & _ & Hts & _ & _ & _ & Hgav & _).
    split; [exact Hts|exact Hgav].
  - destruct (proj2 (pass_commits_twice Sample.world
                       (Sample.started ++ [Block 7 Sample.reads; PassSettles 0])
                       0%nat)
                ["0x01"; "0x02"] Sample.reads [1500000; 0]
                [2 * 10 ^ 18; 1999500000000000000]
                eq_refl eq_refl eq_refl)
      as (_ & _ & Hgav & _ & _ & Hts & _).
    split; [exact Hgav|exact Hts].
Defined.

(** ** Totals and account balances *)

(** After the sample pass the totals are the plain sums of the raw reads:
    1500000 token units and 3999500000000000000 wei, neither divided by
    10^6 nor converted from wei. *)
Lemma totals_not_scaled :
  let s := session Sample.world
             (Sample.started ++ [Block 7 Sample.reads; PassSettles 0; PassSettles 0]) in
  Promise.all (map (fun a => balanceOf_call Sample.reads (Account.address a))
                 (accounts (comp s))) = Fulfilled [1500000; 0] /\
  Promise.all (map (fun a => getBalance_call Sample.reads (Account.address a))
                 (accounts (comp s)))
    = Fulfilled [2 * 10 ^ 18; 1999500000000000000] /\
  gavBalance (comp s) = 1500000 /\
  ethBalance (comp s) = 3999500000000000000 /\
  ~ totals_scaled [1500000; 0] [2 * 10 ^ 18; 1999500000000000000] (comp s).
Proof.
  do 4 (split; [vm_compute; reflexivity|]).
  intros [Hgav _]. vm_compute in Hgav. discriminate.
Qed.

(** C2, amended.  When the balance reads of a pass have all resolved, the
    commit sets [gavBalance] to the exact sum of the accounts' raw token
    balances and [ethBalance] to the exact sum of their raw native balances in
    wei, by integer addition; the totals are neither divided by 10^6 nor
    converted from wei. *)
Theorem totals_are_raw_sums (w : StartupWorld) (evs : list Event) (pid : nat)
  (queried : list Address) (c : ChainReads) (gavs eths : list Z) :
  let s := session w evs in
  let s' := step s (PassSettles pid) in
  passes s !! pid = Some (AwaitBalances queried c) ->
  Promise.all (map (balanceOf_call c) queried) = Fulfilled gavs ->
  Promise.all (map (getBalance_call c) queried) = Fulfilled eths ->
  Forall2 (fun a g => balanceOf_call c (Account.address a) = Fulfilled g)
    (accounts (comp s)) gavs /\
  Forall2 (fun a e => getBalance_call c (Account.address a) = Fulfilled e)
    (accounts (comp s)) eths /\
  last (trace s') = Some (SetState (comp s')) /\
  gavBalance (comp s') = foldr Z.add 0 gavs /\
  ethBalance (comp s') = foldr Z.add 0 eths.
Proof.
  intros s s' Hpid Hgav Heth.
  destruct (pass_second_commit w evs pid queried c gavs eths Hpid Hgav Heth)
    as (Hq & _ & _ & Hstep).
  fold s in Hq, Hstep. subst s'. rewrite Hstep. simpl.
  apply all_fulfilled in Hgav, Heth. rewrite Hq in Hgav, Heth.
  rewrite Forall2_fmap_l in Hgav, Heth.
  rewrite last_snoc, <- !total_foldr. auto.
Qed.

Lemma totals_are_raw_sums_witness :
  let s' := session Sample.world
              (Sample.started ++ [Block 7 Sample.reads; PassSettles 0; PassSettles 0]) in
  gavBalance (comp s') = foldr Z.add 0 [1500000; 0] /\
  ethBalance (comp s') = foldr Z.add 0 [2 * 10 ^ 18; 1999500000000000000].
Proof.
  destruct (totals_are_raw_sums Sample.world
              (Sample.started ++ [Block 7 Sample.reads; PassSettles 0]) 0%nat
              ["0x01"; "0x02"] Sample.reads [1500000; 0]
              [2 * 10 ^ 18; 1999500000000000000] eq_refl eq_refl eq_refl)
    as (_ & _ & _ & Hgav & Heth).
  split; [exact Hgav|exact Heth].
Defined.

(** C7.  When the balance reads of a pass have all resolved, the commit
    keeps the account list as it is, account by account, and gives each
    account [hasGav = (raw token balance > 0)], as [gavBalance] the raw token
    balance printed with six decimals (the amount divided by 10^6) and as
    [ethBalance] the raw native balance in thousandths of the unit, rounded to
    the nearest (the amount converted from wei, with three decimals).  Read
    as decimal numerals, the displayed token balance is exactly the raw
    balance over 10^6, and the displayed native balance is a number of
    thousandths within half a thousandth of the raw balance over 10^18. *)
Theorem accounts_refreshed (w : StartupWorld) (evs : list Event) (pid : nat)
  (queried : list Address) (c : ChainReads) (gavs eths : list Z) :
  let s := session w evs in
  let s' := step s (PassSettles pid) in
  passes s !! pid = Some (AwaitBalances queried c) ->
  Promise.all (map (balanceOf_call c) queried) = Fulfilled gavs ->
  Promise.all (map (getBalance_call c) queried) = Fulfilled eths ->
  length (accounts (comp s')) = length (accounts (comp s)) /\
  forall i acc', accounts (comp s') !! i = Some acc' ->
    exists acc g e,
      accounts (comp s) !! i = Some acc /\
      balanceOf_call c (Account.address acc) = Fulfilled g /\
      getBalance_call c (Account.address acc) = Fulfilled e /\
      Account.address acc' = Account.address acc /\
      Account.name acc' = Account.name acc /\
      Account.hasGav acc' = Some (bool_decide (0 < g)) /\
      Account.gavBalance acc' = Some (BigNumber.print_fixed 6 g) /\
      Account.gavBalance acc' =
        Some (BigNumber.toFormat 6 (BigNumber.div g DIVISOR)) /\
      Account.ethBalance acc' = Some (BigNumber.toFormat 3 (fromWei e)) /\
      (exists m,
         Account.ethBalance acc' = Some (BigNumber.print_fixed 3 m) /\
         2 * Z.abs (m * 10 ^ 15 - e) <= 10 ^ 15) /\
      Account.gavBalance acc' ≫= read_fixed = Some (g, 6%nat) /\
      (exists m,
         Account.ethBalance acc' ≫= read_fixed = Some (m, 3%nat) /\
         2 * Z.abs (m * 10 ^ 15 - e) <= 10 ^ 15).
Proof.
  intros s s' Hpid Hgav Heth.
  destruct (pass_second_commit w evs pid queried c gavs eths Hpid Hgav Heth)
    as (Hq & Hlg & Hle & Hstep).
  fold s in Hq, Hlg, Hle, Hstep. subst s'. rewrite Hstep. simpl.
  apply all_fulfilled in Hgav, Heth. rewrite Hq in Hgav, Heth.
  rewrite Forall2_fmap_l in Hgav, Heth.
  assert (Hlen : length (refreshed (accounts (comp s)) eths gavs)
                 = length (accounts (comp s))).
  { unfold refreshed. rewrite length_zip_with, length_zip_with. lia. }
  split; [exact Hlen|].
  intros i acc' Hi.
  assert (Hlt : (i < length (accounts (comp s)))%nat)
    by (rewrite <- Hlen; eapply lookup_lt_Some; eauto).
  destruct (lookup_lt_is_Some_2 (accounts (comp s)) i Hlt) as [acc Hacc].
  destruct (lookup_lt_is_Some_2 gavs i ltac:(lia)) as [g Hg].
  destruct (lookup_lt_is_Some_2 eths i ltac:(lia)) as [e He].
  rewrite (refreshed_lookup _ _ _ _ _ _ _ Hacc He Hg) in Hi.
  injection Hi as <-.
  exists acc, g, e. split; [exact Hacc|].
  split; [exact (Forall2_lookup_lr _ _ _ _ _ _ Hgav Hacc Hg)|].
  split; [exact (Forall2_lookup_lr _ _ _ _ _ _ Heth Hacc He)|].
  simpl. do 2 (split; [reflexivity|]).
  split.
  { unfold BigNumber.gt. f_equal.
    destruct (Z.ltb_spec 0 g); [rewrite bool_decide_eq_true_2|
                                rewrite bool_decide_eq_false_2]; auto; lia. }
  split; [rewrite toFormat_gav; reflexivity|].
  do 2 (split; [reflexivity|]).
  assert (Hnear : 2 * Z.abs (BigNumber.round_half_up e (10 ^ 15) * 10 ^ 15 - e)
                  <= 10 ^ 15)
    by (apply round_half_up_nearest; reflexivity).
  split.
  { exists (BigNumber.round_half_up e (10 ^ 15)).
    split; [rewrite toFormat_eth; reflexivity|exact Hnear]. }
  split.
  { rewrite toFormat_gav. apply read_print_fixed. lia. }
  exists (BigNumber.round_half_up e (10 ^ 15)).
  split; [|exact Hnear].
  rewrite toFormat_eth. apply read_print_fixed. lia.
Qed.

Lemma accounts_refreshed_witness :
  let s := session Sample.world
             (Sample.started ++ [Block 7 Sample.reads; PassSettles 0]) in
  exists acc',
    accounts (comp (step s (PassSettles 0))) !! 0%nat = Some acc' /\
    Account.address acc' = "0x01" /\
    Account.hasGav acc' = Some true /\
    Account.gavBalance acc' ≫= read_fixed = Some (1500000, 6%nat) /\
    exists m, Account.ethBalance acc' ≫= read_fixed = Some (m, 3%nat) /\
              2 * Z.abs (m * 10 ^ 15 - 2 * 10 ^ 18) <= 10 ^ 15.
Proof.
  intros s.
  destruct (accounts_refreshed Sample.world
              (Sample.started ++ [Block 7 Sample.reads; PassSettles 0]) 0%nat
              ["0x01"; "0x02"] Sample.reads [1500000; 0]
              [2 * 10 ^ 18; 1999500000000000000] eq_refl eq_refl eq_refl)
    as [Hlen Hall].
  fold s in Hlen, Hall.
  destruct (lookup_lt_is_Some_2 (accounts (comp (step s (PassSettles 0)))) 0%nat)
    as [acc' Hacc'].
  { rewrite Hlen. vm_compute. lia. }
  exists acc'. split; [exact Hacc'|].
  destruct (Hall 0%nat acc' Hacc')
    as (acc & g & e & Hacc & Hg & He & Haddr & _ & Hhas & _ & _ & _ & _ & Hrg & Hre).
  vm_compute in Hacc. injection Hacc as <-.
  vm_compute in Hg. injection Hg as <-.
  vm_compute in He. injection He as <-.
  split; [exact Haddr|]. split; [exact Hhas|]. split; [exact Hrg|exact Hre].
Defined.

(** ** Failing reads *)

Lemma all2_rejected_l {A B} (a : Settled A) (b : Settled B) (e : JsError) :
  a = Rejected e -> exists e', Promise.all2 a b = Rejected e'.
Proof. intros ->. destruct b; simpl; eauto. Qed.

Lemma all2_rejected_r {A B} (a : Settled A) (b : Settled B) (e : JsError) :
  b = Rejected e -> exists e', Promise.all2 a b = Rejected e'.
Proof. intros ->. destruct a; simpl; eauto. Qed.

Lemma all3_rejected {A B C} (a : Settled A) (b : Settled B) (c : Settled C) :
  is_rejected a || is_rejected b || is_rejected c = true ->
  exists e, Promise.all3 a b c = Rejected e.
Proof. destruct a, b, c; simpl; intros H; try discriminate; eauto. Qed.

Lemma is_rejected_true {A} (p : Settled A) :
  is_rejected p = true -> exists e, p = Rejected e.
Proof. destruct p; simpl; intros H; [discriminate|eauto]. Qed.

(** A subscribed component has its contract binding. *)
Lemma subscribed_instance (w : StartupWorld) (evs : list Event) :
  subscribed (session w evs) = true ->
  exists inst, instance (comp (session w evs)) = Some inst.
Proof.
  intros Hsub.
  destruct (phase_session w evs)
    as [? Hs ? ? ?|? ? Hs ? ? ? ? ?|? ? ? Hs ? ? ? ?|? ? ? ? ? ? ? ? ? ? ? Hinst ? ? ?];
    try congruence.
  eauto.
Qed.

(** The sample pass whose second token balance cannot be read has been
    dropped, and yet the state is not the one before the pass: it holds the
    pass's block number. *)
Lemma failed_balance_read_changes_state :
  let s := session Sample.world Sample.started in
  let s3 := run s [Block 7 Sample.balance_fails; PassSettles 0; PassSettles 0] in
  balanceOf_call Sample.balance_fails "0x02" = Rejected (RpcError "timeout") /\
  passes s3 = ∅ /\
  blockNumber (comp s) = None /\
  blockNumber (comp s3) = Some 7 /\
  comp s3 ≠ comp s.
Proof.
  do 4 (split; [vm_compute; reflexivity|]).
  intros H. apply (f_equal blockNumber) in H. vm_compute in H. discriminate.
Qed.

(** A pass that runs from its notification to its end with nothing in
    between.  In a subscribed session, such a pass one of whose global reads
    fails leaves the state as it was before the pass.  A pass whose global
    reads resolve and one of whose balance reads fails leaves the state with
    the pass's [blockNumber], [totalSupply], [remaining] and [price] committed
    and with the totals and the accounts as they were before the pass.  In
    both cases the pass is dropped, the handler stays subscribed, and the next
    block notification starts a fresh pass. *)
Lemma failed_pass (w : StartupWorld) (evs : list Event) (bn : Z) (c : ChainReads) :
  let s := session w evs in
  let s3 := whole_pass bn c s in
  subscribed s = true ->
  (is_rejected (totalSupply_call c) || is_rejected (remaining_call c)
     || is_rejected (price_call c) = true ->
   comp s3 = comp s /\
   passes s3 !! next_pass s = None /\ still_listening s3) /\
  (forall ts rem pr a,
     totalSupply_call c = Fulfilled ts ->
     remaining_call c = Fulfilled rem ->
     price_call c = Fulfilled pr ->
     a ∈ accounts (comp s) ->
     is_rejected (balanceOf_call c (Account.address a))
       || is_rejected (getBalance_call c (Account.address a)) = true ->
     comp s3 = setGlobals bn ts rem pr (comp s) /\
     ethBalance (comp s3) = ethBalance (comp s) /\
     gavBalance (comp s3) = gavBalance (comp s) /\
     accounts (comp s3) = accounts (comp s) /\
     passes s3 !! next_pass s = None /\ still_listening s3).
Proof.
  intros s s3 Hsub.
  destruct (subscribed_instance w evs Hsub) as [inst Hinst]. fold s in Hinst.
  set (pid := next_pass s).
  set (s1 := step s (Block bn c)).
  assert (Hs1 : s1 = spawn (AwaitGlobals bn inst c)
                  (emit [Request TotalSupply; Request Remaining; Request Price] s)).
  { unfold s1. simpl. rewrite Hsub. unfold onNewBlockNumber. rewrite Hinst.
    reflexivity. }
  assert (Hpid1 : passes s1 !! pid = Some (AwaitGlobals bn inst c)).
  { rewrite Hs1. simpl. apply lookup_insert_eq. }
  assert (Hs3 : s3 = step (step s1 (PassSettles pid)) (PassSettles pid))
    by reflexivity.
  assert (Hlisten : forall s', subscribed s' = true ->
            instance (comp s') = Some inst -> still_listening s').
  { intros s' Hsub' Hinst'. split; [exact Hsub'|].
    intros bn' c'. exists inst. simpl. rewrite Hsub'.
    unfold onNewBlockNumber. rewrite Hinst'. simpl. apply lookup_insert_eq. }
  split.
  - intros Hrej. apply all3_rejected in Hrej as [e Hrej].
    assert (Hs2 : step s1 (PassSettles pid) = pass_rejected pid e s1).
    { simpl. unfold pass_settles. rewrite Hpid1, Hrej. reflexivity. }
    assert (Hs3' : s3 = pass_rejected pid e s1).
    { rewrite Hs3, Hs2. simpl. unfold pass_settles. simpl.
      rewrite lookup_delete_eq. reflexivity. }
    rewrite Hs3', Hs1. simpl. split; [reflexivity|].
    split; [apply lookup_delete_eq|].
    apply Hlisten; simpl; assumption.
  - intros ts rem pr a Hts Hrem Hpr Ha Hrej.
    assert (Hs2 : step s1 (PassSettles pid)
                  = pass_globals pid bn inst c (ts, rem, pr) s1)
      by (apply pass_first_commit; assumption).
    set (s2 := pass_globals pid bn inst c (ts, rem, pr) s1) in *.
    assert (Hpid2 : passes s2 !! pid
                    = Some (AwaitBalances (map Account.address (accounts (comp s))) c)).
    { unfold s2, pass_globals. rewrite Hs1. simpl. apply lookup_insert_eq. }
    assert (Hall : exists e,
              Promise.all2
                (Promise.all (map (balanceOf_call c)
                                (map Account.address (accounts (comp s)))))
                (Promise.all (map (getBalance_call c)
                                (map Account.address (accounts (comp s)))))
              = Rejected e).
    { assert (Hin : Account.address a ∈ map Account.address (accounts (comp s)))
        by (apply list_elem_of_fmap; eauto).
      apply orb_prop in Hrej as [Hrej|Hrej];
        apply is_rejected_true in Hrej as [e He].
      - destruct (all_rejected _ _ _ _ Hin He) as [e' He'].
        eapply all2_rejected_l; eauto.
      - destruct (all_rejected _ _ _ _ Hin He) as [e' He'].
        eapply all2_rejected_r; eauto. }
    destruct Hall as [e Hall].
    assert (Hs3' : s3 = pass_rejected pid e s2).
    { rewrite Hs3, Hs2. simpl. unfold pass_settles. rewrite Hpid2. simpl.
      rewrite Hall. reflexivity. }
    rewrite Hs3'. unfold s2, pass_globals. rewrite Hs1. simpl.
    do 4 (split; [reflexivity|]).
    split; [apply lookup_delete_eq|].
    apply Hlisten; simpl; assumption.
Qed.

Lemma failed_pass_witness :
  let s := session Sample.world Sample.started in
  let s3 := whole_pass 7 Sample.balance_fails s in
  comp s3 = setGlobals 7 1000 400 3 (comp s) /\ still_listening s3.
Proof.
  destruct (proj2 (failed_pass Sample.world Sample.started 7 Sample.balance_fails
                     eq_refl)
              1000 400 3 (Account.mk "0x02" "Unnamed" 0 None None None)
              eq_refl eq_refl eq_refl)
    as (Hcomp & _ & _ & _ & _ & Hlisten).
  - right. left.
  - reflexivity.
  - split; [exact Hcomp|exact Hlisten].
Defined.

(** No reaction of a pass logs anything: [console.error] is reached only from
    the [catch] that ends [attachInterface]'s chain. *)
Lemma pass_settles_logs_nothing (pid : nat) (s : Sys) :
  exists es, trace (pass_settles pid s) = trace s ++ es /\
    forallb (fun e => negb (is_console_error e)) es = true.
Proof.
  unfold pass_settles, pass_globals, pass_balances, pass_rejected.
  destruct (passes s !! pid) as [[bn inst c|queried c]|].
  - destruct (Promise.all3 _ _ _) as [[[ts rem] pr]|e].
    + exists (SetState (setGlobals bn ts rem pr (comp s))
              :: balanceRequests (accounts (comp s))).
      simpl. rewrite <- app_assoc. split; [reflexivity|].
      unfold balanceRequests. rewrite forallb_app.
      apply andb_true_intro.
      split; induction (accounts (comp s)) as [|a l IH]; simpl; auto.
    + exists [Unhandled e]. simpl. auto.
  - destruct (Promise.all2 _ _) as [[gavs eths]|e].
    + destruct (mapAccounts _ _ _) as [accs [e|]].
      * exists [Unhandled e]. simpl. auto.
      * eexists [SetState _]. simpl. auto.
    + exists [Unhandled e]. simpl. auto.
  - exists []. rewrite app_nil_r. auto.
Qed.

(** C4.  The code at a failing read: after a successful start-up, the pass
    for block 7 cannot read the total supply.  The rejection is left
    unhandled: it is the last thing that happened, nothing was logged with
    [console.error], nothing was thrown to the notifier, the state is the one
    before the pass and the pass is gone. *)
Theorem pass_rejection_unhandled :
  let s := session Sample.world Sample.started in
  let s' := run s [Block 7 Sample.supply_fails; PassSettles 0] in
  totalSupply_call Sample.supply_fails = Rejected (RpcError "timeout") /\
  last (trace s') = Some (Unhandled (RpcError "timeout")) /\
  forallb (fun e => negb (is_console_error e)) (trace s') = true /\
  forallb (fun e => negb (is_throw e)) (trace s') = true /\
  comp s' = comp s /\
  passes s' = ∅.
Proof. repeat split; vm_compute; reflexivity. Qed.

(** ** Worked examples *)

Example toFormat_6 :
  BigNumber.toFormat 6 (BigNumber.div 1234567890123 DIVISOR) = "1,234,567.890123".
Proof. vm_compute. reflexivity. Qed.

Example toFormat_3 :
  BigNumber.toFormat 3 (fromWei 1999500000000000000) = "2.000".
Proof. vm_compute. reflexivity. Qed.

Example toFormat_small :
  BigNumber.toFormat 3 (fromWei 12345678) = "0.000".
Proof. vm_compute. reflexivity. Qed.

Example toFormat_group :
  BigNumber.toFormat 3 (fromWei (123456 * 10 ^ 18)) = "123,456.000".
Proof. vm_compute. reflexivity. Qed.

Example sample_pass_accounts :
  accounts (comp (session Sample.world
                    (Sample.started ++
                     [Block 7 Sample.reads; PassSettles 0; PassSettles 0]))) =
  [Account.mk "0x01" "Main" 0 (Some "2.000") (Some "1.500000") (Some true);
   Account.mk "0x02" "Unnamed" 0 (Some "2.000") (Some "0.000000") (Some false)].
Proof. vm_compute. reflexivity. Qed.

Example sample_startup_trace :
  trace (session Sample.world Sample.started) =
  startup_trace "0xreg" "0xgav" (comp (session Sample.world Sample.started))
  ++ [Subscribe "eth.blockNumber"].
Proof. vm_compute. reflexivity. Qed.

Example sample_offline_trace :
  trace (session Sample.offline Sample.started) =
  [Request RegistryAddress; ConsoleError (RpcError "connection refused")].
Proof. vm_compute. reflexivity. Qed.

(** * Further properties of the component *)

(** ** Sessions, step by step *)

Lemma session_snoc (w : StartupWorld) (evs : list Event) (ev : Event) :
  session w (evs ++ [ev]) = step (session w evs) ev.
Proof. unfold session, run. rewrite fold_left_app. reflexivity. Qed.

Lemma session_app (w : StartupWorld) (evs evs' : list Event) :
  session w (evs ++ evs') = run (session w evs) evs'.
Proof. unfold session, run. apply fold_left_app. Qed.

Lemma mapAccounts_ident (accs : list Account.t) (es gs : list Z) :
  map ident (mapAccounts accs es gs).1 = map ident accs.
Proof.
  revert es gs. induction accs as [|a accs IH]; intros es gs; [reflexivity|].
  simpl. destruct es as [|e es]; [reflexivity|].
  destruct gs as [|g gs]; [reflexivity|].
  specialize (IH es gs). destruct (mapAccounts accs es gs) as [rest err].
  simpl in *. rewrite IH. reflexivity.
Qed.

(** Once the start-up chain has ended with [loading = false], no step changes
    the subscription, the contract address, the binding or the identity of
    the accounts. *)
Lemma ready_step (s : Sys) (ev : Event) :
  startup s = None -> loading (comp s) = false ->
  startup (step s ev) = None /\
  loading (comp (step s ev)) = false /\
  subscribed (step s ev) = subscribed s /\
  address (comp (step s ev)) = address (comp s) /\
  instance (comp (step s ev)) = instance (comp s) /\
  map ident (accounts (comp (step s ev))) = map ident (accounts (comp s)).
Proof.
  intros Hst Hload. destruct ev as [|bn c|pid|act|]; simpl.
  - unfold startup_settles. rewrite Hst. repeat split; congruence.
  - unfold onNewBlockNumber. destruct (subscribed s) eqn:Hsub; [|repeat split; congruence].
    destruct (instance (comp s)) eqn:Hinst; simpl; repeat split; congruence.
  - unfold pass_settles, pass_globals, pass_balances, pass_rejected.
    destruct (passes s !! pid) as [[bn inst c|queried c]|];
      [| |repeat split; congruence].
    + destruct (Promise.all3 _ _ _) as [[[ts rem] pr]|e]; simpl;
        repeat split; congruence.
    + destruct (Promise.all2 _ _) as [[gavs eths]|e]; simpl;
        [|repeat split; congruence].
      pose proof (mapAccounts_ident (accounts (comp s)) eths gavs) as Hid.
      destruct (mapAccounts _ _ _) as [accs [e|]]; simpl in *;
        repeat split; congruence.
  - unfold renderInterface. rewrite Hload. simpl. repeat split; congruence.
  - unfold renderInterface. rewrite Hload. simpl.
    destruct (renderModals (comp s)); simpl; repeat split; congruence.
Qed.

Lemma ready_run (evs : list Event) (s : Sys) :
  startup s = None -> loading (comp s) = false ->
  startup (run s evs) = None /\
  loading (comp (run s evs)) = false /\
  subscribed (run s evs) = subscribed s /\
  address (comp (run s evs)) = address (comp s) /\
  instance (comp (run s evs)) = instance (comp s) /\
  map ident (accounts (comp (run s evs))) = map ident (accounts (comp s)).
Proof.
  unfold run. revert s. induction evs as [|ev evs IH]; intros s Hst Hload;
    [repeat split; assumption|].
  simpl. destruct (ready_step s ev Hst Hload) as (Hst' & Hload' & Hsub & Ha & Hi & Hid).
  destruct (IH _ Hst' Hload') as (? & ? & ? & ? & ? & ?).
  repeat split; congruence.
Qed.

(** A session that shows [loading = false] is running. *)
Lemma loaded_running (w : StartupWorld) (evs : list Event) :
  loading (comp (session w evs)) = false ->
  startup (session w evs) = None /\ subscribed (session w evs) = true.
Proof.
  intros Hload.
  destruct (phase_session w evs)
    as [? ? Hc ? ?|? ? ? Hc ? ? ? ?|? ? ? ? Hc ? ? ?|? ? ? ? Hst Hsub ? ? ? ? ? ? ? ? ?];
    try (rewrite Hc in Hload; discriminate).
  auto.
Qed.

(** ** What is rendered *)


Lemma onAction_same (st : State) : onAction (action st) st = st.
Proof. destruct st; reflexivity. Qed.

(** X2.  A modal is rendered exactly when the stored action is the name of
    one of the three kinds, and it is then that kind's modal, given the
    current accounts and, for buying in and refunding, the current price. *)
Theorem renderModals_kinds (st : State) :
  (forall k, action st = JStr (kind_name k) ->
     renderModals st = Some (modal_of k st)) /\
  (forall m, renderModals st = Some m ->
     exists k, action st = JStr (kind_name k) /\ m = modal_of k st).
Proof.
  split.
  - intros k Hk. unfold renderModals. rewrite Hk. destruct k; reflexivity.
  - intros m Hm.
    destruct (decide (action st = JStr "BuyIn")) as [Hb|Hb].
    { exists BuyIn. split; [exact Hb|].
      unfold renderModals in Hm. rewrite Hb in Hm. simpl in Hm.
      injection Hm as <-. reflexivity. }
    destruct (decide (action st = JStr "Refund")) as [Hr|Hr].
    { exists Refund. split; [exact Hr|].
      unfold renderModals in Hm. rewrite Hr in Hm. simpl in Hm.
      injection Hm as <-. reflexivity. }
    destruct (decide (action st = JStr "Transfer")) as [Ht|Ht].
    { exists Transfer. split; [exact Ht|].
      unfold renderModals in Hm. rewrite Ht in Hm. simpl in Hm.
      injection Hm as <-. reflexivity. }
    pose proof (renderModals_other (action st) st Hb Hr Ht) as Hnone.
    rewrite onAction_same in Hnone. congruence.
Qed.

Lemma renderModals_kinds_witness :
  let st := onAction (JStr "Refund") (publish "0xgav" (newContract gavcoinAbi "0xgav") [] initial) in
  renderModals st = Some (ActionRefund [] None).
Proof.
  intros st. exact (proj1 (renderModals_kinds st) Refund eq_refl).
Defined.

(** X3.  The action request and the synchronized state do not interfere.  An
    event that does not come from the user interface (a settlement of the
    start-up chain, a block notification, a settlement of a pass) never
    changes the stored action.  An event from the user interface changes
    nothing but the stored action: every other state field, the pending
    passes, the subscription and the start-up chain stay as they are, and no
    request is sent. *)
Theorem action_independent (s : Sys) (ev : Event) :
  (is_ui_event ev = false -> action (comp (step s ev)) = action (comp s)) /\
  (is_ui_event ev = true ->
   onActionClose (comp (step s ev)) = onActionClose (comp s) /\
   passes (step s ev) = passes s /\
   next_pass (step s ev) = next_pass s /\
   subscribed (step s ev) = subscribed s /\
   startup (step s ev) = startup s /\
   exists es, trace (step s ev) = trace s ++ es /\
     forallb is_commit es = true).
Proof.
  split.
  - intros Hui. destruct ev as [|bn c|pid|act|]; try discriminate; simpl.
    + unfold startup_settles, attach_registry, attach_lookup, attach_catch.
      destruct (startup s) as [[]|]; [| |reflexivity].
      * destruct (registryAddress (world s)); [|reflexivity].
        destruct (newContract_throws _ _ _); reflexivity.
      * destruct (Promise.all3 _ _ _) as [[[addr addresses] infos]|e];
          [|reflexivity].
        destruct (newContract_throws _ _ _); [reflexivity|].
        destruct (enumerate _ _); reflexivity.
    + unfold onNewBlockNumber. destruct (subscribed s); [|reflexivity].
      destruct (instance (comp s)); reflexivity.
    + unfold pass_settles, pass_globals, pass_balances, pass_rejected.
      destruct (passes s !! pid) as [[bn inst c|queried c]|]; [| |reflexivity].
      * destruct (Promise.all3 _ _ _) as [[[ts rem] pr]|e]; reflexivity.
      * destruct (Promise.all2 _ _) as [[gavs eths]|e]; [|reflexivity].
        destruct (mapAccounts _ _ _) as [accs [e|]]; reflexivity.
  - intros Hui. destruct ev as [|bn c|pid|act|]; try discriminate; simpl.
    + destruct (renderInterface (comp s)); simpl.
      * repeat split. exists [SetState (onAction act (comp s))]. auto.
      * repeat split. exists []. rewrite app_nil_r. auto.
    + destruct (renderInterface (comp s)) as [ui|]; simpl.
      * destruct (modals ui); simpl.
        -- repeat split. exists [SetState (onActionClose (comp s))]. auto.
        -- repeat split. exists []. rewrite app_nil_r. auto.
      * repeat split. exists []. rewrite app_nil_r. auto.
Qed.

Lemma action_independent_witness :
  let s := session Sample.world (Sample.started ++ [Block 7 Sample.reads]) in
  action (comp (step s (PassSettles 0))) = action (comp s) /\
  passes (step s (Click (JStr "BuyIn"))) = passes s.
Proof.
  intros s. split.
  - exact (proj1 (action_independent s (PassSettles 0)) eq_refl).
  - exact (proj1 (proj2 (proj2 (action_independent s (Click (JStr "BuyIn"))) eq_refl))).
Defined.

(** ** The account list *)

Lemma accountName_missing (infos : gmap string AccountInfo) (a : Address) :
  infos !! a = None ->
  accountName infos a = Rejected (TypeError "Cannot read property 'name' of undefined").
Proof. intros H. unfold accountName. rewrite H. reflexivity. Qed.

Lemma displayName_nonempty (l : option string) : displayName l ≠ "".
Proof.
  unfold displayName. destruct l as [s|]; [|discriminate].
  destruct (decide (s = "")); [discriminate|assumption].
Qed.

Lemma enumerate_fulfilled (infos : gmap string AccountInfo)
  (addresses : list Address) (accs : list Account.t) :
  enumerate infos addresses = Fulfilled accs ->
  accs = map (freshAccount infos) addresses /\
  Forall (fun a => is_Some (infos !! a)) addresses.
Proof.
  revert accs. induction addresses as [|a rest IH]; intros accs H; simpl in H.
  - injection H as <-. split; [reflexivity|constructor].
  - destruct (infos !! a) as [info|] eqn:Ha.
    + rewrite accountName_entry in H by (rewrite Ha; eauto).
      destruct (enumerate infos rest) as [accs'|e]; [|discriminate].
      injection H as <-. destruct (IH accs' eq_refl) as [-> Hall].
      split; [reflexivity|]. constructor; [rewrite Ha; eauto|exact Hall].
    + rewrite accountName_missing in H by exact Ha. discriminate.
Qed.

Lemma enumerate_rejected (infos : gmap string AccountInfo)
  (addresses : list Address) (e : JsError) :
  enumerate infos addresses = Rejected e ->
  e = TypeError "Cannot read property 'name' of undefined" /\
  exists a, a ∈ addresses /\ infos !! a = None.
Proof.
  induction addresses as [|a rest IH]; intros H; simpl in H; [discriminate|].
  destruct (infos !! a) as [info|] eqn:Ha.
  - rewrite accountName_entry in H by (rewrite Ha; eauto).
    destruct (enumerate infos rest) as [accs'|e']; [discriminate|].
    injection H as ->. destruct (IH eq_refl) as (-> & b & Hb & Hnone).
    split; [reflexivity|]. exists b. split; [right; exact Hb|exact Hnone].
  - rewrite accountName_missing in H by exact Ha. injection H as <-.
    split; [reflexivity|]. exists a. split; [left|exact Ha].
Qed.

(** X5.  The enumeration gives all accounts or none.  It succeeds exactly
    when the account infos have an entry for every listed address, and then
    yields one account per address, in the listed order, duplicates included.
    When an entry is missing it throws the [TypeError] of reading [name] of
    [undefined], and no account at all is produced, whatever the other
    entries are. *)
Theorem enumerate_all_or_nothing (infos : gmap string AccountInfo)
  (addresses : list Address) :
  (forall accs, enumerate infos addresses = Fulfilled accs ->
     map Account.address accs = addresses /\
     length accs = length addresses /\
     forall a, a ∈ addresses -> is_Some (infos !! a)) /\
  (forall a, a ∈ addresses -> infos !! a = None ->
     enumerate infos addresses =
       Rejected (TypeError "Cannot read property 'name' of undefined")).
Proof.
  split.
  - intros accs H. apply enumerate_fulfilled in H as [-> Hall].
    rewrite length_map, map_map. simpl. rewrite map_id.
    repeat split. intros a Ha. rewrite Forall_forall in Hall. apply Hall, Ha.
  - intros a Ha Hnone.
    destruct (enumerate infos addresses) as [accs|e] eqn:He.
    + apply enumerate_fulfilled in He as [_ Hall].
      rewrite Forall_forall in Hall. apply Hall in Ha as [info Hinfo]. congruence.
    + apply enumerate_rejected in He as [-> _]. reflexivity.
Qed.

Lemma enumerate_all_or_nothing_witness :
  enumerate Sample.infos ["0x01"; "0x03"; "0x02"] =
    Rejected (TypeError "Cannot read property 'name' of undefined").
Proof.
  apply (proj2 (enumerate_all_or_nothing Sample.infos ["0x01"; "0x03"; "0x02"])
           "0x03").
  - right. left.
  - reflexivity.
Defined.

(** The start-up chain leaves the state alone until it publishes. *)
Lemma startup_settles_comp (s : Sys) :
  Phase s -> comp s = initial ->
  comp (startup_settles s) = initial \/
  exists registry addr accs,
    StartupSuccess (world s) registry addr accs /\
    startup (startup_settles s) = None /\
    comp (startup_settles s)
      = publish addr (newContract gavcoinAbi addr) accs initial.
Proof.
  intros Hphase Hcomp. unfold startup_settles.
  destruct Hphase
    as [Hst Hsub _ Hpass Htr
       |registry Hst Hsub _ Hpass Hreg Hthrow Htr
       |tl e Hst Hsub _ Hpass Htr Hq
       |registry addr accs rest Hst Hsub Hok Htr Hrest Hload Haddr Hinst Haccs Hq Hfresh];
    rewrite Hst.
  - left. destruct (registryAddress (world s)) as [registry|e]; [|exact Hcomp].
    unfold attach_registry.
    destruct (newContract_throws _ _ _); exact Hcomp.
  - destruct (Promise.all3 _ _ _) as [[[addr addresses] infos]|e] eqn:Hall;
      [|left; exact Hcomp].
    apply all3_fulfilled in Hall as (Haddr & Hlist & Hinfos). simpl in *.
    unfold attach_lookup.
    destruct (newContract_throws (world s) gavcoinAbi addr) eqn:Hthrow2;
      [left; exact Hcomp|].
    destruct (enumerate infos addresses) as [accs|e] eqn:Henum;
      [|left; exact Hcomp].
    right. exists registry, addr, accs. simpl. rewrite Hcomp.
    split; [|split; reflexivity].
    repeat split; try assumption. exists addresses, infos. auto.
  - left. exact Hcomp.
  - left. exact Hcomp.
Qed.

(** In a session the state is the initial one, or the start-up went through
    and the accounts are, in identity, the enumerated ones. *)
Lemma accounts_enumerated (w : StartupWorld) (evs : list Event) :
  let s := session w evs in
  comp s = initial \/
  exists registry addr accs,
    StartupSuccess w registry addr accs /\
    startup s = None /\ loading (comp s) = false /\
    map ident (accounts (comp s)) = map ident accs.
Proof.
  induction evs as [|ev evs IH] using rev_ind; [left; reflexivity|].
  simpl in *. rewrite session_snoc.
  pose proof (phase_session w evs) as Hphase.
  pose proof (world_session w evs) as Hw.
  destruct IH as [Hcomp|(registry & addr & accs & Hok & Hst & Hload & Hid)].
  - assert (Hidle : subscribed (session w evs) = false /\
                    passes (session w evs) = ∅).
    { destruct Hphase as [? ? ? ? ?|? ? ? ? ? ? ? ?|? ? ? ? ? ? ? ?
                         |? ? ? ? ? ? ? ? ? Hload ? ? ? ? ?]; auto.
      rewrite Hcomp in Hload. discriminate. }
    destruct Hidle as [Hsub Hpass].
    pose proof (idle_step (session w evs) ev Hsub Hcomp Hpass) as Hidle.
    destruct ev; try (rewrite Hidle; left; exact Hcomp).
    simpl.
    destruct (startup_settles_comp _ Hphase Hcomp)
      as [Hc|(registry & addr & accs & Hok & Hst & Hc)]; [left; exact Hc|].
    right. exists registry, addr, accs. rewrite Hw in Hok. rewrite Hc.
    split; [exact Hok|]. split; [exact Hst|]. split; reflexivity.
  - right. exists registry, addr, accs.
    destruct (ready_step (session w evs) ev Hst Hload)
      as (Hst' & Hload' & _ & _ & _ & Hid').
    split; [exact Hok|]. split; [exact Hst'|]. split; [exact Hload'|].
    congruence.
Qed.

(** X4.  In every session the account list is empty while loading, and from
    the publication on it is, in membership, order and identity, the list the
    identity store returned: the i-th account has the i-th address, the name
    the enumeration gave it (the store's label, or ["Unnamed"] for a missing
    or empty one), which is never empty, and [balance] 0.  No pass and no
    user action adds, removes, reorders or renames an account. *)
Theorem accounts_identity (w : StartupWorld) (evs : list Event) :
  let s := session w evs in
  (loading (comp s) = true /\ accounts (comp s) = []) \/
  (exists addresses infos,
     loading (comp s) = false /\
     listAccounts w = Fulfilled addresses /\
     accountsInfo w = Fulfilled infos /\
     map ident (accounts (comp s))
       = map (fun a => (a, displayName (label infos a), 0)) addresses /\
     Forall (fun acc => Account.name acc ≠ "") (accounts (comp s))).
Proof.
  intros s.
  pose proof (accounts_enumerated w evs) as Henum. cbv zeta in Henum.
  fold s in Henum.
  destruct Henum as [Hcomp|(registry & addr & accs & Hok & Hst & Hload & Hid)].
  - left. rewrite Hcomp. auto.
  - right. destruct Hok as (_ & _ & _ & _ & addresses & infos & Hl & Hi & Henum).
    apply enumerate_fulfilled in Henum as [-> _].
    exists addresses, infos. rewrite map_map in Hid. simpl in Hid.
    repeat split; try assumption.
    apply Forall_forall. intros acc Hacc.
    assert (Hin : ident acc ∈ map ident (accounts (comp s)))
      by (apply list_elem_of_fmap; eauto).
    rewrite Hid in Hin. apply list_elem_of_fmap in Hin as (a & Heq & _).
    unfold ident, freshAccount in Heq. simpl in Heq.
    injection Heq as _ -> _. apply displayName_nonempty.
Qed.

(** X6.  Once a session shows [loading = false], it does so for good:
    whatever events follow, the handler stays subscribed, and the contract
    address, the binding and the identity of the accounts stay what they
    were. *)
Theorem ready_is_stable (w : StartupWorld) (evs evs' : list Event) :
  let s := session w evs in
  let s' := session w (evs ++ evs') in
  loading (comp s) = false ->
  loading (comp s') = false /\
  subscribed s' = true /\
  address (comp s') = address (comp s) /\
  instance (comp s') = instance (comp s) /\
  ctx_instance (getChildContext (comp s')) = ctx_instance (getChildContext (comp s)) /\
  map ident (accounts (comp s')) = map ident (accounts (comp s)).
Proof.
  intros s s' Hload.
  destruct (loaded_running w evs Hload) as [Hst Hsub]. fold s in Hst, Hsub.
  unfold s'. rewrite session_app. fold s.
  destruct (ready_run evs' s Hst Hload) as (_ & Hl & Hs & Ha & Hi & Hid).
  unfold getChildContext. simpl.
  repeat split; congruence.
Qed.

Lemma ready_is_stable_witness :
  let s := session Sample.world Sample.started in
  let s' := session Sample.world
              (Sample.started ++
               [Block 7 Sample.balance_fails; PassSettles 0; Click (JStr "BuyIn");
                PassSettles 0; Block 8 Sample.reads]) in
  loading (comp s') = false /\ subscribed s' = true.
Proof.
  intros s s'.
  destruct (ready_is_stable Sample.world Sample.started
              [Block 7 Sample.balance_fails; PassSettles 0; Click (JStr "BuyIn");
               PassSettles 0; Block 8 Sample.reads] eq_refl)
    as (Hl & Hs & _).
  split; [exact Hl|exact Hs].
Defined.

(** ** Errors *)

Lemma balanceRequests_silent (accs : list Account.t) :
  forallb is_silent (balanceRequests accs) = true.
Proof.
  unfold balanceRequests. rewrite forallb_app.
  apply andb_true_intro. split; induction accs as [|a accs IH]; simpl; auto.
Qed.

Lemma pass_settles_silent (pid : nat) (s : Sys) :
  exists es, trace (pass_settles pid s) = trace s ++ es /\
    forallb is_silent es = true /\
    subscribed (pass_settles pid s) = subscribed s.
Proof.
  unfold pass_settles, pass_globals, pass_balances, pass_rejected.
  destruct (passes s !! pid) as [[bn inst c|queried c]|].
  - destruct (Promise.all3 _ _ _) as [[[ts rem] pr]|e].
    + exists (SetState (setGlobals bn ts rem pr (comp s))
              :: balanceRequests (accounts (comp s))).
      simpl. rewrite <- app_assoc. split; [reflexivity|].
      split; [apply balanceRequests_silent|reflexivity].
    + exists [Unhandled e]. simpl. auto.
  - simpl. destruct (Promise.all2 _ _) as [[gavs eths]|e].
    + destruct (mapAccounts _ _ _) as [accs [e|]].
      * exists [Unhandled e]. simpl. auto.
      * eexists [SetState _]. simpl. auto.
    + exists [Unhandled e]. simpl. auto.
  - exists []. rewrite app_nil_r. auto.
Qed.

(** What a step adds to the trace: never an exception thrown to the caller,
    and a [console.error] only when the step ends the start-up chain without
    subscribing. *)
Lemma step_silent (s : Sys) (ev : Event) :
  Phase s ->
  exists es, trace (step s ev) = trace s ++ es /\
    forallb (fun e => negb (is_throw e)) es = true /\
    (forallb is_silent es = true \/ subscribed (step s ev) = false).
Proof.
  intros Hphase.
  assert (Hinst : subscribed s = true -> exists inst, instance (comp s) = Some inst).
  { destruct Hphase as [? Hs ? ? ?|? ? Hs ? ? ? ? ?|? ? ? Hs ? ? ? ?
                       |? ? ? ? ? ? ? ? ? ? ? Hi ? ? ?]; try congruence. eauto. }
  assert (Hstart : startup s <> None -> subscribed s = false).
  { destruct Hphase as [? Hs ? ? ?|? ? Hs ? ? ? ? ?|? ? ? Hs ? ? ? ?
                       |? ? ? ? Hst ? ? ? ? ? ? ? ? ? ?]; congruence. }
  destruct ev as [|bn c|pid|act|]; simpl.
  - unfold startup_settles, attach_registry, attach_lookup, attach_catch.
    destruct (startup s) as [t|] eqn:Hst;
      [|exists []; rewrite app_nil_r; auto].
    assert (Hsub : subscribed s = false) by (apply Hstart; discriminate).
    destruct t.
    + destruct (registryAddress (world s)) as [registry|e];
        [|exists [ConsoleError e]; simpl; auto].
      destruct (newContract_throws _ _ _) as [e|]; simpl;
        rewrite <- ?app_assoc; simpl; eexists; split; try reflexivity; auto.
    + destruct (Promise.all3 _ _ _) as [[[addr addresses] infos]|e];
        [|exists [ConsoleError e]; simpl; auto].
      destruct (newContract_throws _ _ _) as [e|]; simpl;
        [rewrite <- ?app_assoc; simpl; eexists; split; try reflexivity; auto|].
      destruct (enumerate _ _) as [accs|e]; simpl;
        rewrite <- ?app_assoc; simpl; eexists; split; try reflexivity; auto.
  - destruct (subscribed s) eqn:Hsub; [|exists []; rewrite app_nil_r; auto].
    destruct (Hinst eq_refl) as [inst Hi]. unfold onNewBlockNumber. rewrite Hi.
    simpl. eexists. split; [reflexivity|]. auto.
  - destruct (pass_settles_silent pid s) as (es & Htr & Hes & _).
    exists es. split; [exact Htr|]. split; [|left; exact Hes].
    apply (forallb_impl is_silent); [|exact Hes].
    intros e He. apply andb_prop in He as [He _]. exact He.
  - destruct (renderInterface (comp s)); simpl.
    + eexists. split; [reflexivity|]. auto.
    + exists []. rewrite app_nil_r. auto.
  - destruct (renderInterface (comp s)) as [ui|]; simpl.
    + destruct (modals ui); simpl.
      * eexists. split; [reflexivity|]. auto.
      * exists []. rewrite app_nil_r. auto.
    + exists []. rewrite app_nil_r. auto.
Qed.

Lemma session_silent (w : StartupWorld) (evs : list Event) :
  let s := session w evs in
  forallb (fun e => negb (is_throw e)) (trace s) = true /\
  (forallb is_silent (trace s) = true \/ subscribed s = false).
Proof.
  induction evs as [|ev evs IH] using rev_ind; [simpl; auto|].
  cbv zeta in *. rewrite session_snoc.
  pose proof (phase_session w evs) as Hphase.
  destruct (step_silent (session w evs) ev Hphase) as (es & Htr & Hthrow & Hes).
  destruct IH as [IHthrow IH].
  rewrite Htr, !forallb_app, IHthrow, Hthrow. split; [reflexivity|].
  destruct (subscribed (step (session w evs) ev)) eqn:Hsub'; [left|right; reflexivity].
  destruct Hes as [Hes|Hes]; [|discriminate]. rewrite Hes, andb_true_r.
  destruct IH as [IH|Hsub]; [exact IH|].
  destruct Hphase as [Hst _ Hcomp Hpass Htr0
                     |registry Hst _ Hcomp Hpass Hreg Hthrow0 Htr0
                     |tl e Hst _ Hcomp Hpass Htr0 Hq
                     |? ? ? ? ? Hs ? ? ? ? ? ? ? ? ?].
  - rewrite Htr0. reflexivity.
  - rewrite Htr0. reflexivity.
  - exfalso.
    pose proof (idle_step (session w evs) ev Hsub Hcomp Hpass) as Hidle.
    destruct ev; try (rewrite Hidle in Hsub'; congruence).
    simpl in Hsub'. unfold startup_settles in Hsub'. rewrite Hst in Hsub'.
    congruence.
  - congruence.
Qed.

(** X7.  In no session is an exception thrown back to the notifier or to the
    user interface.  In a subscribed session [console.error] was never
    called: after a successful start-up no failure of any read, in any pass,
    is ever logged. *)
Theorem errors_never_surface (w : StartupWorld) (evs : list Event) :
  let s := session w evs in
  forallb (fun e => negb (is_throw e)) (trace s) = true /\
  (subscribed s = true ->
   forallb (fun e => negb (is_console_error e)) (trace s) = true).
Proof.
  intros s. destruct (session_silent w evs) as [Hthrow Hsilent].
  split; [exact Hthrow|]. intros Hsub.
  destruct Hsilent as [Hsilent|Hfalse]; [|fold s in Hfalse; congruence].
  apply (forallb_impl is_silent); [|exact Hsilent].
  intros e He. apply andb_prop in He as [_ He]. exact He.
Qed.

Lemma errors_never_surface_witness :
  let s := session Sample.world
             (Sample.started ++
              [Block 7 Sample.supply_fails; PassSettles 0;
               Block 8 Sample.balance_fails; PassSettles 1; PassSettles 1]) in
  forallb (fun e => negb (is_console_error e)) (trace s) = true.
Proof.
  intros s.
  exact (proj2 (errors_never_surface Sample.world
                  (Sample.started ++
                   [Block 7 Sample.supply_fails; PassSettles 0;
                    Block 8 Sample.balance_fails; PassSettles 1; PassSettles 1]))
           eq_refl).
Defined.

(** ** Passes in flight *)

Lemma running_facts (w : StartupWorld) (evs : list Event) :
  subscribed (session w evs) = true ->
  (exists inst, instance (comp (session w evs)) = Some inst) /\
  passes (session w evs) !! next_pass (session w evs) = None.
Proof.
  intros Hsub.
  destruct (phase_session w evs)
    as [? Hs ? ? ?|? ? Hs ? ? ? ? ?|? ? ? Hs ? ? ? ?
       |? ? ? ? ? ? ? ? ? ? ? Hinst ? ? Hfresh]; try congruence.
  split; [eauto|].
  destruct (passes (session w evs) !! next_pass (session w evs)) eqn:Hp;
    [|reflexivity].
  assert (Hlt : (next_pass (session w evs) < next_pass (session w evs))%nat)
    by (apply Hfresh; rewrite Hp; eauto).
  lia.
Qed.

(** X8.  A block notification never cancels or alters a pass in flight.  In
    a subscribed session it leaves the state untouched, sends exactly the
    three global reads, and adds one pass under an identifier no pending pass
    has; every pass that was pending is still pending, unchanged. *)
Theorem block_keeps_passes (w : StartupWorld) (evs : list Event)
  (bn : Z) (c : ChainReads) :
  let s := session w evs in
  let s' := step s (Block bn c) in
  subscribed s = true ->
  comp s' = comp s /\
  trace s' = trace s ++ [Request TotalSupply; Request Remaining; Request Price] /\
  passes s !! next_pass s = None /\
  (exists inst, instance (comp s) = Some inst /\
     passes s' = <[next_pass s := AwaitGlobals bn inst c]> (passes s)) /\
  (forall pid p, passes s !! pid = Some p -> passes s' !! pid = Some p) /\
  size (passes s') = S (size (passes s)).
Proof.
  intros s s' Hsub.
  destruct (running_facts w evs Hsub) as [[inst Hinst] Hfresh].
  fold s in Hinst, Hfresh.
  assert (Hs' : s' = spawn (AwaitGlobals bn inst c)
                  (emit [Request TotalSupply; Request Remaining; Request Price] s)).
  { unfold s'. simpl. rewrite Hsub. unfold onNewBlockNumber. rewrite Hinst.
    reflexivity. }
  rewrite Hs'. simpl.
  split; [reflexivity|]. split; [reflexivity|]. split; [exact Hfresh|].
  split; [exists inst; auto|]. split.
  - intros pid p Hp. rewrite lookup_insert_ne; [exact Hp|]. congruence.
  - apply map_size_insert_None. exact Hfresh.
Qed.

Lemma block_keeps_passes_witness :
  let s := session Sample.world (Sample.started ++ [Block 7 Sample.reads]) in
  size (passes (step s (Block 8 Sample.balance_fails))) = S (size (passes s)).
Proof.
  intros s.
  exact (proj2 (proj2 (proj2 (proj2 (proj2
           (block_keeps_passes Sample.world (Sample.started ++ [Block 7 Sample.reads])
              8 Sample.balance_fails eq_refl)))))).
Defined.

Lemma refresh_overwrite (e1 g1 e2 g2 : Z) (a : Account.t) :
  refresh e2 g2 (refresh e1 g1 a) = refresh e2 g2 a.
Proof. reflexivity. Qed.

Lemma refreshed_length (accs : list Account.t) (es gs : list Z) :
  length es = length accs -> length gs = length accs ->
  length (refreshed accs es gs) = length accs.
Proof.
  intros He Hg. unfold refreshed. rewrite !length_zip_with. lia.
Qed.

Lemma refreshed_overwrite (accs : list Account.t) (es1 gs1 es2 gs2 : list Z) :
  length es1 = length accs -> length gs1 = length accs ->
  refreshed (refreshed accs es1 gs1) es2 gs2 = refreshed accs es2 gs2.
Proof.
  revert es1 gs1 es2 gs2.
  induction accs as [|a accs IH]; intros es1 gs1 es2 gs2 He Hg; [reflexivity|].
  destruct es1 as [|e1 es1]; [discriminate|].
  destruct gs1 as [|g1 gs1]; [discriminate|].
  destruct es2 as [|e2 es2]; [reflexivity|].
  destruct gs2 as [|g2 gs2]; [reflexivity|].
  unfold refreshed in *. simpl in *. rewrite IH by lia. reflexivity.
Qed.

Lemma refreshed_addresses (accs : list Account.t) (es gs : list Z) :
  length es = length accs -> length gs = length accs ->
  map Account.address (refreshed accs es gs) = map Account.address accs.
Proof.
  intros He Hg. pose proof (mapAccounts_addresses accs es gs) as H.
  rewrite mapAccounts_aligned in H by assumption. exact H.
Qed.

(** X9.  Of two passes whose balance reads are both outstanding, the one that
    settles last decides the balances: when both resolve, the state after the
    first has settled and then the second is the state after the second
    alone.  Nothing of the earlier commit survives, whichever of the two
    blocks is the newer. *)
Theorem last_balances_win (w : StartupWorld) (evs : list Event) (p1 p2 : nat)
  (q1 q2 : list Address) (c1 c2 : ChainReads) (gavs1 eths1 gavs2 eths2 : list Z) :
  let s := session w evs in
  p1 <> p2 ->
  passes s !! p1 = Some (AwaitBalances q1 c1) ->
  passes s !! p2 = Some (AwaitBalances q2 c2) ->
  Promise.all (map (balanceOf_call c1) q1) = Fulfilled gavs1 ->
  Promise.all (map (getBalance_call c1) q1) = Fulfilled eths1 ->
  Promise.all (map (balanceOf_call c2) q2) = Fulfilled gavs2 ->
  Promise.all (map (getBalance_call c2) q2) = Fulfilled eths2 ->
  comp (run s [PassSettles p1; PassSettles p2]) = comp (step s (PassSettles p2)) /\
  gavBalance (comp (run s [PassSettles p1; PassSettles p2])) = total gavs2 /\
  ethBalance (comp (run s [PassSettles p1; PassSettles p2])) = total eths2.
Proof.
  intros s Hne Hp1 Hp2 Hg1 He1 Hg2 He2.
  destruct (pass_second_commit w evs p1 q1 c1 gavs1 eths1 Hp1 Hg1 He1)
    as (_ & Hlg1 & Hle1 & Hstep1).
  destruct (pass_second_commit w evs p2 q2 c2 gavs2 eths2 Hp2 Hg2 He2)
    as (_ & _ & _ & Hstep2).
  fold s in Hlg1, Hle1, Hstep1, Hstep2.
  assert (Hp2' : passes (session w (evs ++ [PassSettles p1])) !! p2
                 = Some (AwaitBalances q2 c2)).
  { rewrite session_snoc. fold s. rewrite Hstep1. simpl.
    rewrite lookup_delete_ne by congruence. exact Hp2. }
  destruct (pass_second_commit w (evs ++ [PassSettles p1]) p2 q2 c2 gavs2 eths2
              Hp2' Hg2 He2) as (_ & _ & _ & Hstep12).
  rewrite session_snoc in Hstep12. fold s in Hstep12.
  change (run s [PassSettles p1; PassSettles p2])
    with (step (step s (PassSettles p1)) (PassSettles p2)).
  rewrite Hstep12, Hstep2, Hstep1. simpl.
  rewrite refreshed_overwrite by assumption. auto.
Qed.

Lemma last_balances_win_witness :
  let s := session Sample.world
             (Sample.started ++
              [Block 8 Sample.reads; Block 7 Sample.reads;
               PassSettles 0; PassSettles 1]) in
  comp (run s [PassSettles 0; PassSettles 1]) = comp (step s (PassSettles 1)).
Proof.
  intros s.
  exact (proj1 (last_balances_win Sample.world
                  (Sample.started ++
                   [Block 8 Sample.reads; Block 7 Sample.reads;
                    PassSettles 0; PassSettles 1])
                  0%nat 1%nat ["0x01"; "0x02"] ["0x01"; "0x02"]
                  Sample.reads Sample.reads
                  [1500000; 0] [2 * 10 ^ 18; 1999500000000000000]
                  [1500000; 0] [2 * 10 ^ 18; 1999500000000000000]
                  ltac:(discriminate) eq_refl eq_refl
                  eq_refl eq_refl eq_refl eq_refl)).
Defined.

(** X10.  The global counters are not gated on the block number.  Of two
    passes whose global reads are both outstanding and resolve, the one that
    settles last decides [blockNumber], [totalSupply], [remaining] and
    [price], also when its block is the older one; the state is then the one
    the later settlement alone would have given. *)
Theorem last_globals_win (s : Sys) (p1 p2 : nat) (bn1 bn2 : Z)
  (i1 i2 : Instance) (c1 c2 : ChainReads) (ts1 rem1 pr1 ts2 rem2 pr2 : Z) :
  p1 <> p2 ->
  passes s !! p1 = Some (AwaitGlobals bn1 i1 c1) ->
  passes s !! p2 = Some (AwaitGlobals bn2 i2 c2) ->
  totalSupply_call c1 = Fulfilled ts1 -> remaining_call c1 = Fulfilled rem1 ->
  price_call c1 = Fulfilled pr1 ->
  totalSupply_call c2 = Fulfilled ts2 -> remaining_call c2 = Fulfilled rem2 ->
  price_call c2 = Fulfilled pr2 ->
  let s' := run s [PassSettles p1; PassSettles p2] in
  comp s' = comp (step s (PassSettles p2)) /\
  blockNumber (comp s') = Some bn2 /\
  totalSupply (comp s') = Some ts2 /\
  remaining (comp s') = Some rem2 /\
  price (comp s') = Some pr2.
Proof.
  intros Hne Hp1 Hp2 Hts1 Hrem1 Hpr1 Hts2 Hrem2 Hpr2 s'.
  assert (Hs1 : step s (PassSettles p1)
                = pass_globals p1 bn1 i1 c1 (ts1, rem1, pr1) s)
    by (apply pass_first_commit; assumption).
  assert (Hp2' : passes (step s (PassSettles p1)) !! p2
                 = Some (AwaitGlobals bn2 i2 c2)).
  { rewrite Hs1. unfold pass_globals. simpl.
    rewrite lookup_insert_ne by congruence. exact Hp2. }
  unfold s'.
  change (run s [PassSettles p1; PassSettles p2])
    with (step (step s (PassSettles p1)) (PassSettles p2)).
  rewrite (pass_first_commit _ p2 bn2 i2 c2 ts2 rem2 pr2 Hp2' Hts2 Hrem2 Hpr2).
  rewrite (pass_first_commit s p2 bn2 i2 c2 ts2 rem2 pr2 Hp2 Hts2 Hrem2 Hpr2).
  rewrite Hs1. unfold pass_globals. simpl. auto.
Qed.

Lemma last_globals_win_witness :
  let s := session Sample.world
             (Sample.started ++ [Block 8 Sample.reads; Block 7 Sample.reads]) in
  blockNumber (comp (run s [PassSettles 0; PassSettles 1])) = Some 7.
Proof.
  intros s.
  exact (proj1 (proj2 (last_globals_win s 0%nat 1%nat 8 7
                         (newContract gavcoinAbi "0xgav")
                         (newContract gavcoinAbi "0xgav")
                         Sample.reads Sample.reads 1000 400 3 1000 400 3
                         ltac:(discriminate) eq_refl eq_refl
                         eq_refl eq_refl eq_refl eq_refl eq_refl eq_refl))).
Defined.

(** ** A pass from notification to end *)

Lemma block_spawns (w : StartupWorld) (evs : list Event) (bn : Z) (c : ChainReads) :
  let s := session w evs in
  subscribed s = true ->
  passes s !! next_pass s = None /\
  exists inst,
    step s (Block bn c) =
      spawn (AwaitGlobals bn inst c)
        (emit [Request TotalSupply; Request Remaining; Request Price] s).
Proof.
  intros s Hsub.
  destruct (running_facts w evs Hsub) as [[inst Hinst] Hfresh].
  fold s in Hinst, Hfresh. split; [exact Hfresh|]. exists inst.
  simpl. rewrite Hsub. unfold onNewBlockNumber. rewrite Hinst. reflexivity.
Qed.

Lemma whole_pass_ok (w : StartupWorld) (evs : list Event) (bn : Z) (c : ChainReads)
  (ts rem pr : Z) (gavs eths : list Z) :
  let s := session w evs in
  let st2 := setGlobals bn ts rem pr (comp s) in
  let st3 := setBalances (total eths) (total gavs)
               (refreshed (accounts (comp s)) eths gavs) st2 in
  subscribed s = true ->
  totalSupply_call c = Fulfilled ts ->
  remaining_call c = Fulfilled rem ->
  price_call c = Fulfilled pr ->
  Promise.all (map (fun a => balanceOf_call c (Account.address a))
                 (accounts (comp s))) = Fulfilled gavs ->
  Promise.all (map (fun a => getBalance_call c (Account.address a))
                 (accounts (comp s))) = Fulfilled eths ->
  comp (whole_pass bn c s) = st3 /\
  trace (whole_pass bn c s) =
    trace s ++ [Request TotalSupply; Request Remaining; Request Price] ++
    SetState st2 :: balanceRequests (accounts (comp s)) ++ [SetState st3] /\
  passes (whole_pass bn c s) = passes s /\
  subscribed (whole_pass bn c s) = true /\
  length gavs = length (accounts (comp s)) /\
  length eths = length (accounts (comp s)).
Proof.
  intros s st2 st3 Hsub Hts Hrem Hpr Hgav Heth.
  destruct (block_spawns w evs bn c Hsub) as [Hfresh [inst Hs1]].
  fold s in Hfresh, Hs1.
  set (pid := next_pass s) in *.
  set (s1 := step s (Block bn c)) in *.
  assert (Hpid1 : passes s1 !! pid = Some (AwaitGlobals bn inst c))
    by (rewrite Hs1; simpl; apply lookup_insert_eq).
  assert (Hs2 : step s1 (PassSettles pid)
                = pass_globals pid bn inst c (ts, rem, pr) s1)
    by (apply pass_first_commit; assumption).
  assert (Hlg : length gavs = length (accounts (comp s))).
  { apply all_fulfilled, Forall2_length in Hgav. congruence. }
  assert (Hle : length eths = length (accounts (comp s))).
  { apply all_fulfilled, Forall2_length in Heth. congruence. }
  assert (Hs3 : whole_pass bn c s
                = pass_balances pid (gavs, eths)
                    (pass_globals pid bn inst c (ts, rem, pr) s1)).
  { change (whole_pass bn c s)
      with (step (step s1 (PassSettles pid)) (PassSettles pid)).
    rewrite Hs2. simpl. unfold pass_settles at 1.
    unfold pass_globals at 1. simpl. rewrite lookup_insert_eq.
    rewrite Hs1. simpl. rewrite !map_map, Hgav, Heth. reflexivity. }
  rewrite Hs3. unfold pass_balances, pass_globals. rewrite Hs1. simpl.
  rewrite mapAccounts_aligned by assumption. simpl.
  split; [reflexivity|]. split.
  { rewrite <- !app_assoc. reflexivity. }
  split.
  { rewrite insert_insert_eq, delete_insert_eq. apply delete_id, Hfresh. }
  auto.
Qed.



Lemma whole_pass_session (w : StartupWorld) (evs : list Event) (bn : Z)
  (c : ChainReads) :
  whole_pass bn c (session w evs) =
  session w (evs ++ [Block bn c; PassSettles (next_pass (session w evs));
                     PassSettles (next_pass (session w evs))]).
Proof. unfold whole_pass. rewrite session_app. reflexivity. Qed.

(** X12.  Passes are idempotent in what they read.  When a second pass reads
    the same chain state as a completed first one, it changes nothing but the
    block number: totals, accounts and counters are equal to the ones the
    first pass left, and with the same block number the whole state is. *)
Theorem repeated_pass_idempotent (w : StartupWorld) (evs : list Event)
  (bn bn' : Z) (c : ChainReads) (ts rem pr : Z) (gavs eths : list Z) :
  let s := session w evs in
  let s1 := whole_pass bn c s in
  let s2 := whole_pass bn' c s1 in
  subscribed s = true ->
  totalSupply_call c = Fulfilled ts ->
  remaining_call c = Fulfilled rem ->
  price_call c = Fulfilled pr ->
  Promise.all (map (fun a => balanceOf_call c (Account.address a))
                 (accounts (comp s))) = Fulfilled gavs ->
  Promise.all (map (fun a => getBalance_call c (Account.address a))
                 (accounts (comp s))) = Fulfilled eths ->
  comp s2 = setGlobals bn' ts rem pr (comp s1) /\
  blockNumber (comp s2) = Some bn' /\
  totalSupply (comp s2) = totalSupply (comp s1) /\
  remaining (comp s2) = remaining (comp s1) /\
  price (comp s2) = price (comp s1) /\
  ethBalance (comp s2) = ethBalance (comp s1) /\
  gavBalance (comp s2) = gavBalance (comp s1) /\
  accounts (comp s2) = accounts (comp s1) /\
  (bn' = bn -> comp s2 = comp s1).
Proof.
  intros s s1 s2 Hsub Hts Hrem Hpr Hgav Heth.
  destruct (whole_pass_ok w evs bn c ts rem pr gavs eths Hsub Hts Hrem Hpr Hgav Heth)
    as (Hcomp1 & _ & _ & Hsub1 & Hlg & Hle).
  fold s in Hcomp1, Hsub1, Hlg, Hle. fold s1 in Hcomp1, Hsub1.
  assert (Hs1 : s1 = session w (evs ++ [Block bn c; PassSettles (next_pass s);
                                          PassSettles (next_pass s)]))
    by apply whole_pass_session.
  assert (Hacc1 : accounts (comp s1) = refreshed (accounts (comp s)) eths gavs)
    by (rewrite Hcomp1; reflexivity).
  assert (Haddr : map Account.address (accounts (comp s1))
                  = map Account.address (accounts (comp s)))
    by (rewrite Hacc1; apply refreshed_addresses; assumption).
  assert (Hgav1 : Promise.all (map (fun a => balanceOf_call c (Account.address a))
                                 (accounts (comp s1))) = Fulfilled gavs).
  { rewrite <- (map_map Account.address (balanceOf_call c)), Haddr, map_map.
    exact Hgav. }
  assert (Heth1 : Promise.all (map (fun a => getBalance_call c (Account.address a))
                                 (accounts (comp s1))) = Fulfilled eths).
  { rewrite <- (map_map Account.address (getBalance_call c)), Haddr, map_map.
    exact Heth. }
  rewrite Hs1 in Hsub1, Hgav1, Heth1.
  destruct (whole_pass_ok w _ bn' c ts rem pr gavs eths Hsub1 Hts Hrem Hpr Hgav1 Heth1)
    as (Hcomp2 & _).
  rewrite <- Hs1 in Hcomp2. fold s2 in Hcomp2.
  rewrite Hacc1, refreshed_overwrite in Hcomp2 by assumption.
  assert (Heq : comp s2 = setGlobals bn' ts rem pr (comp s1)).
  { rewrite Hcomp2, Hcomp1. reflexivity. }
  rewrite Heq, Hcomp1. simpl. repeat split.
  intros ->. reflexivity.
Qed.

Lemma repeated_pass_idempotent_witness :
  let s := session Sample.world Sample.started in
  accounts (comp (whole_pass 8 Sample.reads (whole_pass 7 Sample.reads s)))
  = accounts (comp (whole_pass 7 Sample.reads s)).
Proof.
  intros s.
  destruct (repeated_pass_idempotent Sample.world Sample.started 7 8 Sample.reads
              1000 400 3 [1500000; 0] [2 * 10 ^ 18; 1999500000000000000]
              eq_refl eq_refl eq_refl eq_refl eq_refl eq_refl)
    as (_ & _ & _ & _ & _ & _ & _ & Hacc & _).
  exact Hacc.
Defined.



(** ** A start-up that goes through *)

Lemma startup_success_unique (w : StartupWorld) (r r' a a' : Address)
  (accs accs' : list Account.t) :
  StartupSuccess w r a accs -> StartupSuccess w r' a' accs' ->
  r = r' /\ a = a' /\ accs = accs'.
Proof.
  intros (Hr & _ & Ha & _ & l & i & Hl & Hi & He)
         (Hr' & _ & Ha' & _ & l' & i' & Hl' & Hi' & He').
  assert (r = r') by congruence. assert (a = a') by congruence.
  assert (l = l') by congruence. assert (i = i') by congruence. subst.
  repeat split. congruence.
Qed.

(** With every step succeeding, the chain cannot end without subscribing. *)
Lemma startup_success_subscribes (w : StartupWorld) (evs : list Event)
  (registry addr : Address) (accs : list Account.t) :
  StartupSuccess w registry addr accs ->
  startup (session w evs) = None -> subscribed (session w evs) = true.
Proof.
  intros Hok. induction evs as [|ev evs IH] using rev_ind; [discriminate|].
  rewrite session_snoc.
  pose proof (phase_session w evs) as Hphase.
  pose proof (world_session w evs) as Hw.
  destruct Hok as (Hreg & Hthrow & Hget & Hthrow2 & addresses & infos & Hl & Hi & He).
  destruct Hphase
    as [Hst Hsub Hcomp Hpass Htr
       |registry' Hst Hsub Hcomp Hpass Hreg' Hthrow' Htr
       |tl e Hst Hsub Hcomp Hpass Htr Hq
       |registry' addr' accs' rest Hst Hsub Hok' Htr Hrest Hload Haddr Hinst Haccs Hq Hfresh].
  - pose proof (idle_step (session w evs) ev Hsub Hcomp Hpass) as Hidle.
    destruct ev; try (rewrite Hidle; congruence).
    simpl. unfold startup_settles. rewrite Hst, Hw, Hreg.
    unfold attach_registry. rewrite Hw, Hthrow. simpl. discriminate.
  - pose proof (idle_step (session w evs) ev Hsub Hcomp Hpass) as Hidle.
    destruct ev; try (rewrite Hidle; congruence).
    simpl. unfold startup_settles. rewrite Hst, Hw, Hget, Hl, Hi. simpl.
    unfold attach_lookup. rewrite Hw, Hthrow2, He. reflexivity.
  - specialize (IH Hst). congruence.
  - intros _. destruct (ready_step (session w evs) ev Hst Hload) as (_ & _ & Hs & _).
    congruence.
Qed.

(** X14.  A start-up whose every step succeeds does complete.  Once the
    chain has settled twice, whatever other events came in between, the
    handler is subscribed, [loading] is [false], the state holds the resolved
    contract address and its binding, and the accounts are, in identity, the
    enumerated ones.  Right after the two settlements the state is exactly
    the published one. *)
Theorem startup_completes (w : StartupWorld) (evs : list Event)
  (registry addr : Address) (accs : list Account.t) :
  let s := session w evs in
  StartupSuccess w registry addr accs ->
  (2 <= settles evs)%nat ->
  subscribed s = true /\
  loading (comp s) = false /\
  address (comp s) = Some addr /\
  instance (comp s) = Some (newContract gavcoinAbi addr) /\
  map ident (accounts (comp s)) = map ident accs /\
  comp (session w [StartupSettles; StartupSettles])
    = publish addr (newContract gavcoinAbi addr) accs initial.
Proof.
  intros s Hok Hsettled.
  pose proof (startup_settled w evs Hsettled) as Hst. fold s in Hst.
  pose proof (startup_success_subscribes w evs registry addr accs Hok Hst) as Hsub.
  fold s in Hsub.
  pose proof (world_session w evs) as Hw. fold s in Hw.
  pose proof (phase_session w evs) as Hphase. fold s in Hphase.
  pose proof (accounts_enumerated w evs) as Henum. cbv zeta in Henum.
  fold s in Henum.
  destruct Hphase
    as [? Hs ? ? ?|? ? Hs ? ? ? ? ?|? ? ? Hs ? ? ? ?
       |registry' addr' accs' rest _ _ Hok' Htr Hrest Hload Haddr Hinst Haccs Hq Hfresh];
    try congruence.
  rewrite Hw in Hok'.
  destruct (startup_success_unique _ _ _ _ _ _ _ Hok Hok') as (<- & <- & <-).
  split; [exact Hsub|]. split; [exact Hload|]. split; [exact Haddr|].
  split; [exact Hinst|]. split.
  - destruct Henum as [Hc|(r2 & a2 & accs2 & Hok2 & _ & _ & Hid)];
      [rewrite Hc in Hload; discriminate|].
    destruct (startup_success_unique _ _ _ _ _ _ _ Hok Hok2) as (_ & _ & <-).
    exact Hid.
  - destruct Hok as (Hreg & Hthrow & Hget & Hthrow2 & addresses & infos
                     & Hl & Hi & He).
    unfold session, run, componentDidMount, attachInterface. simpl.
    unfold startup_settles at 2. simpl. rewrite Hreg.
    unfold attach_registry. simpl. rewrite Hthrow. simpl.
    unfold startup_settles. simpl. rewrite Hget, Hl, Hi. simpl.
    unfold attach_lookup. simpl. rewrite Hthrow2, He. reflexivity.
Qed.

Lemma startup_completes_witness :
  let s := session Sample.world
             [Click (JStr "BuyIn"); StartupSettles; Block 7 Sample.reads;
              StartupSettles; Block 8 Sample.reads] in
  subscribed s = true /\ loading (comp s) = false.
Proof.
  intros s.
  assert (Hok : StartupSuccess Sample.world "0xreg" "0xgav"
                  (map (freshAccount Sample.infos) ["0x01"; "0x02"])).
  { repeat split. exists ["0x01"; "0x02"], Sample.infos. repeat split. }
  destruct (startup_completes Sample.world
              [Click (JStr "BuyIn"); StartupSettles; Block 7 Sample.reads;
               StartupSettles; Block 8 Sample.reads]
              "0xreg" "0xgav" _ Hok ltac:(simpl; lia))
    as (Hsub & Hload & _).
  split; [exact Hsub|exact Hload].
Defined.

(** ** A failing read, under any interleaving *)

Lemma pending_running (w : StartupWorld) (evs : list Event) (pid : nat) (p : Pass) :
  passes (session w evs) !! pid = Some p ->
  subscribed (session w evs) = true /\
  exists inst, instance (comp (session w evs)) = Some inst.
Proof.
  intros Hpid.
  destruct (phase_session w evs)
    as [? ? ? Hpass ?|? ? ? ? Hpass ? ? ?|? ? ? ? ? Hpass ? ?
       |? ? ? ? ? Hsub ? ? ? ? ? Hinst ? ? ?];
    try (rewrite Hpass, lookup_empty in Hpid; discriminate).
  eauto.
Qed.

(** A pass waits for its balance reads only after its first reaction has
    published its counters. *)
Lemma awaiting_balances_origin (s : Sys) (ev : Event) (pid : nat)
  (q : list Address) (c : ChainReads) :
  passes (step s ev) !! pid = Some (AwaitBalances q c) ->
  passes s !! pid = Some (AwaitBalances q c) \/
  exists bn ts rem pr,
    totalSupply_call c = Fulfilled ts /\
    remaining_call c = Fulfilled rem /\
    price_call c = Fulfilled pr /\
    SetState (setGlobals bn ts rem pr (comp s)) ∈ trace (step s ev).
Proof.
  destruct ev as [|bn c'|pid'|act|]; simpl.
  - unfold startup_settles, attach_registry, attach_lookup, attach_catch.
    destruct (startup s) as [[]|]; [| |auto].
    + destruct (registryAddress (world s)); [|auto].
      destruct (newContract_throws _ _ _); auto.
    + destruct (Promise.all3 _ _ _) as [[[addr addresses] infos]|e]; [|auto].
      destruct (newContract_throws _ _ _); [auto|].
      destruct (enumerate _ _); auto.
  - unfold onNewBlockNumber. destruct (subscribed s); [|auto].
    destruct (instance (comp s)); [|auto]. simpl.
    destruct (decide (pid = next_pass s)) as [->|Hne].
    + rewrite lookup_insert_eq. discriminate.
    + rewrite lookup_insert_ne by auto. auto.
  - unfold pass_settles.
    destruct (passes s !! pid') as [[bn inst c'|q' c']|] eqn:Hpid'; [| |auto].
    + destruct (Promise.all3 _ _ _) as [[[ts rem] pr]|e] eqn:Hall.
      * apply all3_fulfilled in Hall as (Hts & Hrem & Hpr). simpl in *.
        unfold pass_globals. simpl.
        destruct (decide (pid = pid')) as [->|Hne].
        -- rewrite lookup_insert_eq. intros [= <- <-]. right.
           exists bn, ts, rem, pr. repeat split; try assumption.
           rewrite <- app_assoc. apply elem_of_app. right. left.
        -- rewrite lookup_insert_ne by auto. auto.
      * unfold pass_rejected. simpl. intros H.
        apply lookup_delete_Some in H as [_ H]. auto.
    + simpl. destruct (Promise.all2 _ _) as [[gavs eths]|e].
      * unfold pass_balances.
        destruct (mapAccounts _ _ _) as [accs [e|]]; simpl; intros H;
          apply lookup_delete_Some in H as [_ H]; auto.
      * unfold pass_rejected. simpl. intros H.
        apply lookup_delete_Some in H as [_ H]. auto.
  - destruct (renderInterface (comp s)); auto.
  - destruct (renderInterface (comp s)) as [ui|]; [|auto].
    destruct (modals ui); auto.
Qed.

Lemma first_commit_recorded (w : StartupWorld) (evs : list Event) (pid : nat)
  (q : list Address) (c : ChainReads) :
  passes (session w evs) !! pid = Some (AwaitBalances q c) ->
  exists bn st, SetState st ∈ trace (session w evs) /\ shows_globals bn c st.
Proof.
  induction evs as [|ev evs IH] using rev_ind.
  - simpl. rewrite lookup_empty. discriminate.
  - rewrite session_snoc. intros Hpid.
    apply awaiting_balances_origin in Hpid
      as [Hold|(bn & ts & rem & pr & Hts & Hrem & Hpr & Hin)].
    + destruct (IH Hold) as (bn & st & Hin & Hshow).
      destruct (step_silent (session w evs) ev (phase_session w evs))
        as (es & Htr & _).
      exists bn, st. split; [|exact Hshow].
      rewrite Htr. apply elem_of_app. left. exact Hin.
    + exists bn, (setGlobals bn ts rem pr (comp (session w evs))).
      split; [exact Hin|].
      unfold shows_globals. rewrite Hts, Hrem, Hpr. repeat split.
Qed.

Lemma listening (s : Sys) (inst : Instance) :
  subscribed s = true -> instance (comp s) = Some inst -> still_listening s.
Proof.
  intros Hsub Hinst. split; [exact Hsub|].
  intros bn c. exists inst. simpl. rewrite Hsub.
  unfold onNewBlockNumber. rewrite Hinst. simpl. apply lookup_insert_eq.
Qed.

(** C3, amended.  A failing read ends its pass at the reaction that waits
    for it, and that reaction changes nothing; this holds in every session,
    whatever other passes and user actions are interleaved.  The block
    notification itself never changes the state.  When one of the three
    global reads of a pending pass fails, its settlement leaves the state
    exactly as it was: the pass has written nothing.  When the global reads
    resolve, the settlement replaces the four counters and leaves the totals
    and the accounts alone.  When a balance read of a pending pass fails, its
    settlement leaves the state exactly as it was: the pass's counters were
    published by its earlier commit, which is in the history and is not taken
    back, and the pass never writes the totals or the accounts.  In both
    failing cases the pass is dropped with one unhandled rejection, the
    handler stays subscribed and the next block notification starts a fresh
    pass.  In particular a pass that runs from notification to end with
    nothing in between leaves the state it found when a global read fails,
    and that state with only the four counters replaced when a balance read
    fails. *)
Theorem failing_read_aborts_pass (w : StartupWorld) (evs : list Event) (pid : nat) :
  let s := session w evs in
  let s' := step s (PassSettles pid) in
  (forall bn c, comp (step s (Block bn c)) = comp s) /\
  (forall bn inst c,
     passes s !! pid = Some (AwaitGlobals bn inst c) ->
     is_rejected (totalSupply_call c) || is_rejected (remaining_call c)
       || is_rejected (price_call c) = true ->
     comp s' = comp s /\
     passes s' = delete pid (passes s) /\
     (exists e, trace s' = trace s ++ [Unhandled e]) /\
     still_listening s') /\
  (forall bn inst c ts rem pr,
     passes s !! pid = Some (AwaitGlobals bn inst c) ->
     totalSupply_call c = Fulfilled ts ->
     remaining_call c = Fulfilled rem ->
     price_call c = Fulfilled pr ->
     comp s' = setGlobals bn ts rem pr (comp s) /\
     ethBalance (comp s') = ethBalance (comp s) /\
     gavBalance (comp s') = gavBalance (comp s) /\
     accounts (comp s') = accounts (comp s)) /\
  (forall queried c a,
     passes s !! pid = Some (AwaitBalances queried c) ->
     a ∈ queried ->
     is_rejected (balanceOf_call c a) || is_rejected (getBalance_call c a) = true ->
     (exists bn st, SetState st ∈ trace s /\ shows_globals bn c st) /\
     queried = map Account.address (accounts (comp s)) /\
     comp s' = comp s /\
     passes s' = delete pid (passes s) /\
     (exists e, trace s' = trace s ++ [Unhandled e]) /\
     still_listening s') /\
  (forall bn c,
     subscribed s = true ->
     (is_rejected (totalSupply_call c) || is_rejected (remaining_call c)
        || is_rejected (price_call c) = true ->
      comp (whole_pass bn c s) = comp s) /\
     (forall ts rem pr a,
        totalSupply_call c = Fulfilled ts ->
        remaining_call c = Fulfilled rem ->
        price_call c = Fulfilled pr ->
        a ∈ accounts (comp s) ->
        is_rejected (balanceOf_call c (Account.address a))
          || is_rejected (getBalance_call c (Account.address a)) = true ->
        comp (whole_pass bn c s) = setGlobals bn ts rem pr (comp s))).
Proof.
  intros s s'. split; [|split; [|split; [|split]]].
  - intros bn c. simpl. destruct (subscribed s); [|reflexivity].
    unfold onNewBlockNumber. destruct (instance (comp s)); reflexivity.
  - intros bn inst c Hpid Hrej.
    destruct (pending_running w evs pid _ Hpid) as [Hsub [i Hinst]].
    fold s in Hsub, Hinst.
    apply all3_rejected in Hrej as [e Hrej].
    assert (Hs' : s' = pass_rejected pid e s).
    { unfold s'. simpl. unfold pass_settles. rewrite Hpid, Hrej. reflexivity. }
    rewrite Hs'. simpl. split; [reflexivity|]. split; [reflexivity|].
    split; [exists e; reflexivity|].
    apply (listening _ i); simpl; assumption.
  - intros bn inst c ts rem pr Hpid Hts Hrem Hpr.
    unfold s'. rewrite (pass_first_commit s pid bn inst c ts rem pr Hpid Hts Hrem Hpr).
    unfold pass_globals. simpl. repeat split.
  - intros queried c a Hpid Ha Hrej.
    destruct (pending_running w evs pid _ Hpid) as [Hsub [i Hinst]].
    fold s in Hsub, Hinst.
    split; [exact (first_commit_recorded w evs pid queried c Hpid)|].
    assert (Hq : queried = map Account.address (accounts (comp s))).
    { pose proof (phase_session w evs) as Hphase. fold s in Hphase.
      destruct Hphase
        as [? ? ? Hpass ?|? ? ? ? Hpass ? ? ?|? ? ? ? ? Hpass ? ?
           |? ? ? ? ? ? ? ? ? ? ? ? ? Hq ?];
        try (rewrite Hpass, lookup_empty in Hpid; discriminate).
      eapply Hq; eauto. }
    split; [exact Hq|].
    assert (Hall : exists e,
              Promise.all2 (Promise.all (map (balanceOf_call c) queried))
                (Promise.all (map (getBalance_call c) queried)) = Rejected e).
    { apply orb_prop in Hrej as [Hrej|Hrej];
        apply is_rejected_true in Hrej as [e He].
      - destruct (all_rejected _ _ _ _ Ha He) as [e' He'].
        eapply all2_rejected_l; eauto.
      - destruct (all_rejected _ _ _ _ Ha He) as [e' He'].
        eapply all2_rejected_r; eauto. }
    destruct Hall as [e Hall].
    assert (Hs' : s' = pass_rejected pid e s).
    { unfold s'. simpl. unfold pass_settles. rewrite Hpid. simpl.
      rewrite Hall. reflexivity. }
    rewrite Hs'. simpl. split; [reflexivity|]. split; [reflexivity|].
    split; [exists e; reflexivity|].
    apply (listening _ i); simpl; assumption.
  - intros bn c Hsub.
    destruct (failed_pass w evs bn c Hsub) as [Hglobal Hbalance].
    split.
    + intros Hrej. apply (Hglobal Hrej).
    + intros ts rem pr a Hts Hrem Hpr Ha Hrej.
      apply (Hbalance ts rem pr a Hts Hrem Hpr Ha Hrej).
Qed.

Lemma failing_read_aborts_pass_witness :
  let s := session Sample.world
             (Sample.started ++
              [Block 7 Sample.balance_fails; Block 8 Sample.reads;
               PassSettles 0; PassSettles 1; PassSettles 1]) in
  let s' := step s (PassSettles 0) in
  comp s' = comp s /\ passes s' = delete 0%nat (passes s) /\ still_listening s'.
Proof.
  intros s s'.
  destruct (proj1 (proj2 (proj2 (proj2
              (failing_read_aborts_pass Sample.world
                 (Sample.started ++
                  [Block 7 Sample.balance_fails; Block 8 Sample.reads;
                   PassSettles 0; PassSettles 1; PassSettles 1]) 0%nat))))
              ["0x01"; "0x02"] Sample.balance_fails "0x02" eq_refl)
    as (_ & _ & Hcomp & Hpass & _ & Hlisten).
  - right. left.
  - reflexivity.
  - split; [exact Hcomp|]. split; [exact Hpass|exact Hlisten].
Defined.
